(** * REACH serial link manager: a shallow embedding of [REACH/Software/app.py]

    The development follows the Flask backend of the REACH robot arm: the
    global state ([ser], [history], [serial_buffer], [listener_active]), the
    background listener, the reconnect loop, the response correlator
    [wait_for_new_response], the rolling history [log_command] and the two
    routes [connect] and [send_command].

    Conventions.
    - Timestamps ([time.time()], seconds) are read as exact rationals [Q];
      rounding of the binary floating-point subtraction [since_time - grace]
      is outside the model.
    - Text is [string]; characters are code points below 256.
    - Whatever the operating system, the device and the other threads decide
      (clock readings, outcome of a serial call, lines that arrive between two
      polls) is passed to each function as an explicit environment record.
    - Every function also returns the list of effects it performed, in
      program order, so that lock scopes can be read off the trace. *)

From Stdlib Require Import ZArith QArith Lqa List String Ascii Bool Arith Lia Sorted.
Import ListNotations.

Local Open Scope string_scope.
Local Open Scope Q_scope.
Local Open Scope list_scope.

(** ** Text helpers (Python [str] methods used by the module) *)

(** [str.isspace] on one character, for code points below 256. *)
Definition isspace (c : ascii) : bool :=
  let n := nat_of_ascii c in
  ((9 <=? n) && (n <=? 13) || (28 <=? n) && (n <=? 32) || (n =? 133) || (n =? 160))%nat.

Fixpoint lstrip (s : string) : string :=
  match s with
  | EmptyString => EmptyString
  | String c rest => if isspace c then lstrip rest else s
  end.

Fixpoint rstrip (s : string) : string :=
  match s with
  | EmptyString => EmptyString
  | String c rest =>
      match rstrip rest with
      | EmptyString => if isspace c then EmptyString else String c EmptyString
      | kept => String c kept
      end
  end.

(** [s.strip()] *)
Definition strip (s : string) : string := rstrip (lstrip s).

(** Truthiness of a Python string: non-empty. *)
Definition truthy (s : string) : bool :=
  match s with EmptyString => false | String _ _ => true end.

(** [s.startswith(p)] *)
Definition startswith (s p : string) : bool := String.prefix p s.

(** The line terminator appended to every command. *)
Definition LF : string := String (ascii_of_nat 10) EmptyString.

(** Strict comparison on timestamps. *)
Definition Qltb (x y : Q) : bool := negb (Qle_bool y x).

(** ** Global configuration *)

Definition DEVELOPMENT_MODE : bool := true.
Definition DEFAULT_PORT : string := "COM3".
Definition PASSWORD : string := "letmein".
Definition BAUD_RATE : Z := 9600%Z.
Definition ENABLE_AUTO_RECONNECT : bool := true.

(** ** Global state *)

(** A [serial.Serial] object as far as the module looks at it. *)
Record Serial : Type := mkSerial {
  port_name : string;
  is_open : bool
}.

(** One entry of [serial_buffer]: [{'timestamp': ..., 'data': ...}]. *)
Record LineRecord : Type := mkLine {
  timestamp : Q;
  data : string
}.

(** One entry of [history]: [{'cmd': ..., 'response': ..., 'timestamp': ...}]. *)
Record Exchange : Type := mkExchange {
  ex_cmd : string;
  ex_response : string;
  ex_timestamp : string
}.

Record State : Type := mkState {
  ser : option Serial;
  history : list Exchange;
  serial_buffer : list LineRecord;
  listener_active : bool
}.

Definition initial_state : State := mkState None [] [] false.

Definition set_ser (v : option Serial) (s : State) : State :=
  mkState v (history s) (serial_buffer s) (listener_active s).

Definition set_history (h : list Exchange) (s : State) : State :=
  mkState (ser s) h (serial_buffer s) (listener_active s).

Definition set_serial_buffer (b : list LineRecord) (s : State) : State :=
  mkState (ser s) (history s) b (listener_active s).

Definition set_listener_active (b : bool) (s : State) : State :=
  mkState (ser s) (history s) (serial_buffer s) b.

(** [deque(maxlen=100)]: an append on a full deque drops the leftmost item. *)
Definition BUFFER_MAXLEN : nat := 100.

Definition deque_append (maxlen : nat) (x : LineRecord) (d : list LineRecord)
  : list LineRecord :=
  if (maxlen =? 0)%nat then d
  else if (maxlen <=? List.length d)%nat then tl d ++ [x]
  else d ++ [x].

(** ** Effects *)

Inductive Event : Type :=
| EvTime (t : Q)                (* time.time() *)
| EvAcquire                     (* entering  [with serial_lock] *)
| EvRelease                     (* leaving   [with serial_lock] *)
| EvProbe                       (* ser.in_waiting *)
| EvReadline                    (* ser.readline() *)
| EvWrite (payload : string)    (* ser.write(...) *)
| EvClose                       (* ser.close() *)
| EvOpen (port : string)        (* serial.Serial(port, ...) *)
| EvAppend (r : LineRecord)     (* serial_buffer.append(...) *)
| EvSnapshot                    (* list(serial_buffer) *)
| EvSleep (d : Q)               (* time.sleep(d) *)
| EvSpawnListener               (* threading.Thread(target=serial_listener).start() *)
| EvListenerError               (* print("Listener error ...") *)
| EvLog (e : Exchange).         (* history.append(...) *)

Definition Trace : Type := list Event.

(** ** Serial listener *)

(** What one pass of the listener loop meets: the outcome of
    [ser.in_waiting] ([None]: it raises), the outcome of [ser.readline()]
    already decoded with [errors='ignore'] ([None]: it raises), and the clock
    reading taken for the record. *)
Record Tick : Type := mkTick {
  probe : option nat;
  readline : option string;
  observed : Q
}.

(** How a pass of a [while True] loop ends. *)
Inductive LoopStep : Type :=
| Continue      (* the loop goes on to its next pass *)
| Returned      (* the function returned *)
| Raised.       (* an exception left the function *)

Definition POLL : Q := 0.01.

(** One pass of [serial_listener]'s loop. *)
Definition serial_listener_pass (k : Tick) (s : State) : LoopStep * State * Trace :=
  match ser s with
  | None => (Continue, s, [EvAcquire; EvRelease; EvSleep POLL])
  | Some _ =>
      match probe k with
      | None => (Raised, s, [EvAcquire; EvProbe; EvRelease])
      | Some O => (Continue, s, [EvAcquire; EvProbe; EvRelease; EvSleep POLL])
      | Some (S _) =>
          match readline k with
          | None =>
              (Continue, s,
               [EvAcquire; EvProbe; EvReadline; EvListenerError; EvRelease; EvSleep POLL])
          | Some raw =>
              let line := strip raw in
              if truthy line then
                let r := mkLine (observed k) line in
                (Continue,
                 set_serial_buffer (deque_append BUFFER_MAXLEN r (serial_buffer s)) s,
                 [EvAcquire; EvProbe; EvReadline; EvTime (observed k); EvAppend r;
                  EvRelease; EvSleep POLL])
              else
                (Continue, s, [EvAcquire; EvProbe; EvReadline; EvRelease; EvSleep POLL])
          end
      end
  end.

(** [serial_listener]: the loop, run over the passes the environment supplies.
    It stops at the first pass that does not continue. *)
Fixpoint serial_listener (ks : list Tick) (s : State) : LoopStep * State * Trace :=
  match ks with
  | [] => (Continue, s, [])
  | k :: rest =>
      match serial_listener_pass k s with
      | (Continue, s1, tr1) =>
          let '(o, s2, tr2) := serial_listener rest s1 in (o, s2, tr1 ++ tr2)
      | stopped => stopped
      end
  end.

(** ** Reconnect loop *)

(** What one pass of [auto_reconnect_loop] meets: whether the health probe
    [ser.in_waiting] answers, and whether opening [DEFAULT_PORT] succeeds. *)
Record ReconnectTick : Type := mkReconnectTick {
  probe_ok : bool;
  reopen_ok : bool
}.

Definition RECONNECT_PERIOD : Q := 5.

(** One pass of [auto_reconnect_loop]'s loop.  An exception of [ser.close()]
    is swallowed by the inner [try], so the pass does not depend on it. *)
Definition auto_reconnect_pass (k : ReconnectTick) (s : State) : State * Trace :=
  let '(needs_reconnect, s1, tr1) :=
    match ser s with
    | None => (true, s, [])
    | Some _ =>
        if probe_ok k then (false, s, [EvProbe])
        else (true, set_listener_active false (set_ser None s), [EvProbe; EvClose])
    end in
  if needs_reconnect then
    if reopen_ok k then
      let s2 := set_ser (Some (mkSerial DEFAULT_PORT true)) s1 in
      if listener_active s2 then
        (s2, tr1 ++ [EvOpen DEFAULT_PORT; EvSleep RECONNECT_PERIOD])
      else
        (set_listener_active true s2,
         tr1 ++ [EvOpen DEFAULT_PORT; EvSpawnListener; EvSleep RECONNECT_PERIOD])
    else
      (set_ser None s1, tr1 ++ [EvOpen DEFAULT_PORT; EvSleep RECONNECT_PERIOD])
  else (s1, tr1 ++ [EvSleep RECONNECT_PERIOD]).

(** ** Correlator *)

Definition grace : Q := 0.05.
Definition DEFAULT_TIMEOUT : Q := 2.0.
Definition NO_RESPONSE : string := "No response".

(** The test of line 116: [ts >= since_time - grace]. *)
Definition qualifies (since_time : Q) (item : LineRecord) : bool :=
  let ts := timestamp item in
  Qle_bool (since_time - grace) ts.

(** The [for item in list(serial_buffer)] scan of one poll: the data of the
    first item that passes the test, front to back. *)
Fixpoint scan (since_time : Q) (items : list LineRecord) : option string :=
  match items with
  | [] => None
  | item :: rest =>
      if qualifies since_time item then Some (data item)
      else scan since_time rest
  end.

(** What one evaluation of the loop condition meets: the clock reading of
    [time.time()] and the passes the listener thread completed since the
    previous poll (the lock makes each of them atomic for the scan). *)
Record Poll : Type := mkPoll {
  now : Q;
  arrivals : list Tick
}.

Record WaitEnv : Type := mkWaitEnv {
  start : Q;
  polls : list Poll
}.

Definition listener_progress (ks : list Tick) (s : State) : State :=
  snd (fst (serial_listener ks s)).

(** The [while time.time() - start < timeout] loop.  [None]: the supplied
    polls ran out while the loop was still waiting. *)
Fixpoint wait_loop (since_time timeout start : Q) (ps : list Poll) (s : State)
  : option (string * State * Trace) :=
  match ps with
  | [] => None
  | p :: rest =>
      let s1 := listener_progress (arrivals p) s in
      if Qltb (now p - start) timeout then
        match scan since_time (serial_buffer s1) with
        | Some d => Some (d, s1, [EvTime (now p); EvAcquire; EvSnapshot; EvRelease])
        | None =>
            match wait_loop since_time timeout start rest s1 with
            | Some (d, s2, tr) =>
                Some (d, s2,
                      [EvTime (now p); EvAcquire; EvSnapshot; EvRelease; EvSleep POLL] ++ tr)
            | None => None
            end
        end
      else Some (NO_RESPONSE, s1, [EvTime (now p)])
  end.

Definition wait_for_new_response (since_time timeout : Q) (env : WaitEnv) (s : State)
  : option (string * State * Trace) :=
  match wait_loop since_time timeout (start env) (polls env) s with
  | Some (d, s1, tr) => Some (d, s1, EvTime (start env) :: tr)
  | None => None
  end.

(** ** History *)

Definition HISTORY_CAP : nat := 50.

(** [log_command]: append, then drop the head once the list is longer than 50. *)
Definition log_command (cmd response stamp : string) (s : State) : State :=
  let h := history s ++ [mkExchange cmd response stamp] in
  if (HISTORY_CAP <? List.length h)%nat then set_history (tl h) s
  else set_history h s.

Definition clear_log (s : State) : State := set_history [] s.

(** ** Routes *)

(** The JSON body of a request, as far as the routes read it:
    [data.get('password')], [data.get('port')], [data['command']]. *)
Record Request : Type := mkRequest {
  command : option string;
  port : option string;
  password : option string
}.

Section Routes.

(** [json.loads] belongs to the Python library: the decoded values and the
    decoder are parameters; [None] stands for the exception it raises. *)
Variable Json : Type.
Variable json_loads : string -> option Json.

Inductive Body : Type :=
| StatusMessage (status message : string)   (* {'status': ..., 'message': ...} *)
| Payload (parsed : Json)                   (* jsonify(parsed) *)
| Unhandled.                                (* exception outside any [try] *)

Record HttpResponse : Type := mkResponse {
  body : Body;
  code : nat
}.

(** [jsonify(...)] alone answers with status 200. *)
Definition jsonify (b : Body) : HttpResponse := mkResponse b 200.

(** [require_password]: [true] when the wrapped route is entered. *)
Definition require_password (req : option Request) : bool :=
  if negb DEVELOPMENT_MODE then
    match req with
    | Some r =>
        match password r with
        | Some p => String.eqb p PASSWORD
        | None => false
        end
    | None => false
    end
  else true.

Definition unauthorized : HttpResponse :=
  mkResponse (StatusMessage "error" "Unauthorized") 403.

(** *** [/connect] *)

(** Outcome of [ser.close()] and of [serial.Serial(port, ...)]; [Some msg]
    is an exception whose text is [msg]. *)
Record ConnectEnv : Type := mkConnectEnv {
  close_raises : option string;
  open_raises : option string
}.

Definition connect (env : ConnectEnv) (req : option Request) (s : State)
  : HttpResponse * State * Trace :=
  if negb (require_password req) then (unauthorized, s, [])
  else
    match req with
    | None => (mkResponse Unhandled 500, s, [])
    | Some r =>
        match port r with
        | None => (mkResponse (StatusMessage "error" "No port specified") 400, s, [])
        | Some p =>
            if negb (truthy p) then
              (mkResponse (StatusMessage "error" "No port specified") 400, s, [])
            else
              let attempt_open (s1 : State) (tr1 : Trace) :=
                match open_raises env with
                | None =>
                    (jsonify (StatusMessage "success" ("Connected to " ++ p)%string),
                     set_ser (Some (mkSerial p true)) s1, tr1 ++ [EvOpen p])
                | Some msg =>
                    (jsonify (StatusMessage "error" msg), s1, tr1 ++ [EvOpen p])
                end in
              match ser s with
              | Some h =>
                  if is_open h then
                    match close_raises env with
                    | None =>
                        attempt_open
                          (set_ser (Some (mkSerial (port_name h) false)) s) [EvClose]
                    | Some msg => (jsonify (StatusMessage "error" msg), s, [EvClose])
                    end
                  else attempt_open s []
              | None => attempt_open s []
              end
        end
    end.

(** *** [/send] *)

(** What one call of [send_command] meets: the clock reading [since], whether
    [ser.write] succeeds, the environment of the wait that follows, and the
    ISO timestamp [log_command] takes. *)
Record SendEnv : Type := mkSendEnv {
  since : Q;
  write_ok : bool;
  waiting : WaitEnv;
  logged_at : string
}.

(** Lines 194-208: what the route answers for a response text.  [jsonify] is
    taken to accept every value [json.loads] produces, so the inner [try]
    only fails through the decoder. *)
Definition classify (response : string) : HttpResponse :=
  if String.eqb response NO_RESPONSE then
    jsonify (StatusMessage "error" "No response from robot")
  else
    match json_loads response with
    | Some parsed => jsonify (Payload parsed)
    | None =>
        if startswith response "ACK" then jsonify (StatusMessage "success" response)
        else if startswith response "ERR" then jsonify (StatusMessage "error" response)
        else jsonify (StatusMessage "unknown" response)
    end.

Definition not_available : HttpResponse :=
  mkResponse (StatusMessage "error" "Serial port not available") 500.

Definition send_command (env : SendEnv) (req : option Request) (s : State)
  : option (HttpResponse * State * Trace) :=
  if negb (require_password req) then Some (unauthorized, s, [])
  else
    match req with
    | None => Some (mkResponse (StatusMessage "error" "No command provided") 400, s, [])
    | Some r =>
        match command r with
        | None =>
            Some (mkResponse (StatusMessage "error" "No command provided") 400, s, [])
        | Some c =>
            let cmd := strip c in
            match ser s with
            | None => Some (not_available, s, [])
            | Some h =>
                if negb (is_open h) then Some (not_available, s, [])
                else if write_ok env then
                  match wait_for_new_response (since env) DEFAULT_TIMEOUT (waiting env) s with
                  | None => None
                  | Some (response, s1, tr) =>
                      Some (classify response,
                            log_command cmd response (logged_at env) s1,
                            [EvTime (since env); EvWrite (cmd ++ LF)%string] ++ tr
                              ++ [EvLog (mkExchange cmd response (logged_at env))])
                  end
                else
                  Some (mkResponse (StatusMessage "error" "Failed to send command") 500,
                        s, [EvTime (since env); EvWrite (cmd ++ LF)%string])
            end
        end
    end.

End Routes.

Arguments StatusMessage {Json} status message.
Arguments Payload {Json} parsed.
Arguments Unhandled {Json}.
Arguments mkResponse {Json} body code.
Arguments body {Json} h.
Arguments code {Json} h.
Arguments jsonify {Json} b.
Arguments unauthorized {Json}.
Arguments not_available {Json}.
Arguments connect {Json} env req s.
Arguments classify {Json} json_loads response.
Arguments send_command {Json} json_loads env req s.

(** ** Threads and the lock *)

Inductive Thread : Type := Gateway | Listener.

Definition thread_eqb (a b : Thread) : bool :=
  match a, b with
  | Gateway, Gateway | Listener, Listener => true
  | _, _ => false
  end.

(** Effect of one event on [serial_lock]; [None]: the event cannot happen now
    (acquire of a held lock, release by a thread that does not hold it). *)
Definition lock_step (who : Thread) (e : Event) (holder : option Thread)
  : option (option Thread) :=
  match e with
  | EvAcquire =>
      match holder with
      | None => Some (Some who)
      | Some _ => None
      end
  | EvRelease =>
      match holder with
      | Some w => if thread_eqb w who then Some None else None
      | None => None
      end
  | _ => Some holder
  end.

(** One scheduled event: who performed it, which event, and who held the lock
    when it happened. *)
Definition Scheduled : Type := (Thread * Event * option Thread)%type.

(** Interleaving of the Gateway's and the Listener's effects under a schedule
    that names, step by step, the thread that runs next. *)
Fixpoint interleave (sched : list Thread) (g l : Trace) (holder : option Thread)
  : option (list Scheduled) :=
  match sched with
  | [] => Some []
  | Gateway :: rest =>
      match g with
      | [] => None
      | e :: g' =>
          match lock_step Gateway e holder with
          | None => None
          | Some holder' =>
              option_map (cons (Gateway, e, holder)) (interleave rest g' l holder')
          end
      end
  | Listener :: rest =>
      match l with
      | [] => None
      | e :: l' =>
          match lock_step Listener e holder with
          | None => None
          | Some holder' =>
              option_map (cons (Listener, e, holder)) (interleave rest g l' holder')
          end
      end
  end.

Definition is_write (e : Event) : bool :=
  match e with EvWrite _ => true | _ => false end.

Definition holds (who : Thread) (holder : option Thread) : bool :=
  match holder with Some w => thread_eqb w who | None => false end.

(** Number of lock scopes open after a thread's own effects. *)
Fixpoint lock_depth (tr : Trace) (depth : nat) : nat :=
  match tr with
  | [] => depth
  | EvAcquire :: rest => lock_depth rest (S depth)
  | EvRelease :: rest => lock_depth rest (Nat.pred depth)
  | _ :: rest => lock_depth rest depth
  end.

(** A Gateway write performed while the Listener holds the lock. *)
Definition overlap (run : list Scheduled) : bool :=
  existsb (fun x : Scheduled =>
             let '(who, e, holder) := x in
             thread_eqb who Gateway && is_write e && holds Listener holder) run.

(** ** Vocabulary of the properties *)

(** The state after the listener activity of a list of polls. *)
Fixpoint after_polls (ps : list Poll) (s : State) : State :=
  match ps with
  | [] => s
  | p :: rest => after_polls rest (listener_progress (arrivals p) s)
  end.

(** Polls that all fall within the timeout and whose snapshot holds no record
    observed at or after [since_time - grace]. *)
Fixpoint idle (since_time timeout start : Q) (ps : list Poll) (s : State) : Prop :=
  match ps with
  | [] => True
  | p :: rest =>
      let s1 := listener_progress (arrivals p) s in
      now p - start < timeout
      /\ (forall x, In x (serial_buffer s1) -> ~ since_time - grace <= timestamp x)
      /\ idle since_time timeout start rest s1
  end.

(** [r] is the first record of [items], front to back, observed at or after
    [since_time - grace]. *)
Definition first_qualifying (since_time : Q) (items : list LineRecord) (r : LineRecord)
  : Prop :=
  exists l1 l2,
    items = l1 ++ r :: l2
    /\ since_time - grace <= timestamp r
    /\ forall x, In x l1 -> ~ since_time - grace <= timestamp x.

(** [s] begins with [p]. *)
Definition begins_with (s p : string) : Prop :=
  exists rest, s = (p ++ rest)%string.

(** The last [n] elements of a list, in order. *)
Definition keep_last {A : Type} (n : nat) (l : list A) : list A :=
  skipn (List.length l - n) l.

(** The exchanges a trace appended to the history, in order. *)
Fixpoint logged (tr : Trace) : list Exchange :=
  match tr with
  | [] => []
  | EvLog e :: rest => e :: logged rest
  | _ :: rest => logged rest
  end.

(** A sequence of [/send] calls, one after the other. *)
Fixpoint send_all {Json : Type} (json_loads : string -> option Json)
  (calls : list (SendEnv * option Request)) (s : State) : option (State * Trace) :=
  match calls with
  | [] => Some (s, [])
  | (env, req) :: rest =>
      match send_command json_loads env req s with
      | None => None
      | Some (_, s1, tr1) =>
          match send_all json_loads rest s1 with
          | None => None
          | Some (s2, tr2) => Some (s2, tr1 ++ tr2)
          end
      end
  end.

(** The polls keep pace with the clock: the first is read no earlier than
    [start], and each later one at least one sleep after the previous one. *)
Fixpoint paced (prev : Q) (ps : list Poll) : Prop :=
  match ps with
  | [] => True
  | p :: rest => prev <= now p /\ paced (now p + POLL) rest
  end.

(** [ser] refers to an open handle. *)
Definition has_open_connection (s : State) : bool :=
  match ser s with
  | Some h => is_open h
  | None => false
  end.

(** Effects that open or close a connection. *)
Definition touches_connection (e : Event) : bool :=
  match e with
  | EvOpen _ | EvClose => true
  | _ => false
  end.

(** The environment of a [/send] call covers the whole wait: its polls keep
    pace with the clock and reach the default timeout. *)
Definition covers_timeout (env : SendEnv) : Prop :=
  paced (start (waiting env)) (polls (waiting env))
  /\ (1 <= List.length (polls (waiting env)))%nat
  /\ DEFAULT_TIMEOUT + POLL
     <= inject_Z (Z.of_nat (List.length (polls (waiting env)))) * POLL.

(** A decoder for the examples: it accepts the texts that open an object. *)
Definition sample_loads (s : string) : option string :=
  if startswith s "{" then Some s else None.

(** ** The remaining routes and loops *)

(** [init_serial]: open [DEFAULT_PORT]; on an exception [ser] is [None]. *)
Definition init_serial (open_ok : bool) (s : State) : State * Trace :=
  if open_ok then (set_ser (Some (mkSerial DEFAULT_PORT true)) s, [EvOpen DEFAULT_PORT])
  else (set_ser None s, [EvOpen DEFAULT_PORT]).

(** [auto_reconnect_loop]: the loop, run over the passes the environment
    supplies. *)
Fixpoint auto_reconnect_loop (ks : list ReconnectTick) (s : State) : State * Trace :=
  match ks with
  | [] => (s, [])
  | k :: rest =>
      let '(s1, tr1) := auto_reconnect_pass k s in
      let '(s2, tr2) := auto_reconnect_loop rest s1 in
      (s2, tr1 ++ tr2)
  end.

(** [/status]: the value of ['connected'].  [probe_answers] tells whether
    [ser.in_waiting] answers; the bare [except] turns its exception into
    [False]. *)
Definition get_status (probe_answers : bool) (s : State) : bool * Trace :=
  match ser s with
  | None => (false, [])
  | Some h =>
      if probe_answers then (is_open h, [EvProbe]) else (false, [EvProbe])
  end.

(** [/log]: the history as it stands, behind [require_password]. *)
Inductive LogReply : Type :=
| LogUnauthorized
| LogEntries (entries : list Exchange).

Definition get_log (req : option Request) (s : State) : LogReply :=
  if negb (require_password req) then LogUnauthorized
  else LogEntries (history s).

(** [/log/clear], the route around [history = []]. *)
Definition clear_log_route {Json : Type} (req : option Request) (s : State)
  : HttpResponse Json * State :=
  if negb (require_password req) then (unauthorized, s)
  else (jsonify (StatusMessage "success" "History cleared"), clear_log s).

(** [generate_video_stream]: one multipart chunk per frame, until the first
    [camera.read()] that fails.  Each read is [None] (no success) or the JPEG
    bytes [cv2.imencode] made of the frame. *)
Definition CRLF : string := String (ascii_of_nat 13) (String (ascii_of_nat 10) EmptyString).

Definition frame_chunk (jpeg : string) : string :=
  ("--frame" ++ CRLF ++ "Content-Type: image/jpeg" ++ CRLF ++ CRLF ++ jpeg ++ CRLF)%string.

Fixpoint generate_video_stream (reads : list (option string)) : list string :=
  match reads with
  | [] => []
  | None :: _ => []
  | Some jpeg :: rest => frame_chunk jpeg :: generate_video_stream rest
  end.

(** ** The backend as a transition system *)

(** What can happen to the global state: a call of a route, or a pass of one
    of the two background loops. *)
Inductive Action : Type :=
| ActSend (env : SendEnv) (req : option Request)
| ActConnect (env : ConnectEnv) (req : option Request)
| ActClearLog (req : option Request)
| ActGetLog (req : option Request)
| ActStatus (probe_answers : bool)
| ActListener (k : Tick)
| ActReconnect (k : ReconnectTick).

(** The state after an action; [None] when a [/send] is given too few polls
    to finish. *)
Definition act {Json : Type} (json_loads : string -> option Json)
  (a : Action) (s : State) : option State :=
  match a with
  | ActSend env req =>
      match send_command json_loads env req s with
      | Some (_, s', _) => Some s'
      | None => None
      end
  | ActConnect env req => Some (snd (fst (@connect Json env req s)))
  | ActClearLog req => Some (snd (@clear_log_route Json req s))
  | ActGetLog _ => Some s
  | ActStatus _ => Some s
  | ActListener k => Some (snd (fst (serial_listener_pass k s)))
  | ActReconnect k => Some (fst (auto_reconnect_pass k s))
  end.

Fixpoint run {Json : Type} (json_loads : string -> option Json)
  (actions : list Action) (s : State) : option State :=
  match actions with
  | [] => Some s
  | a :: rest =>
      match act json_loads a s with
      | Some s1 => run json_loads rest s1
      | None => None
      end
  end.

(** ** Reading traces *)

(** Effects the listener and the correlator perform inside [with serial_lock]. *)
Definition needs_lock (e : Event) : bool :=
  match e with
  | EvProbe | EvReadline | EvAppend _ | EvSnapshot => true
  | _ => false
  end.

(** Lock discipline of one thread's trace, [held] telling whether the thread
    holds the lock at its start: scopes do not nest, a release closes a
    scope of the thread, the effects of [needs_lock] happen inside a scope,
    a sleep happens outside, and the trace ends outside. *)
Fixpoint well_locked (held : bool) (tr : Trace) : bool :=
  match tr with
  | [] => negb held
  | EvAcquire :: rest => negb held && well_locked true rest
  | EvRelease :: rest => held && well_locked false rest
  | EvSleep _ :: rest => negb held && well_locked held rest
  | e :: rest => (if needs_lock e then held else true) && well_locked held rest
  end.

Definition count_events (f : Event -> bool) (tr : Trace) : nat :=
  List.length (filter f tr).

Definition is_snapshot (e : Event) : bool :=
  match e with EvSnapshot => true | _ => false end.

Definition is_open_event (e : Event) : bool :=
  match e with EvOpen _ => true | _ => false end.

Definition is_spawn (e : Event) : bool :=
  match e with EvSpawnListener => true | _ => false end.

(** The records a trace appended to the line buffer, in order. *)
Fixpoint appended (tr : Trace) : list LineRecord :=
  match tr with
  | [] => []
  | EvAppend r :: rest => r :: appended rest
  | _ :: rest => appended rest
  end.

(** The ports a trace tried to open, in order. *)
Fixpoint opened_ports (tr : Trace) : list string :=
  match tr with
  | [] => []
  | EvOpen p :: rest => p :: opened_ports rest
  | _ :: rest => opened_ports rest
  end.

(** ** More vocabulary *)

(** Records in the order of their timestamps. *)
Definition chronological (items : list LineRecord) : Prop :=
  StronglySorted (fun a b => timestamp a <= timestamp b) items.

(** Clock readings of the listener that never go back, from [t] on. *)
Fixpoint steady_clock (t : Q) (ks : list Tick) : Prop :=
  match ks with
  | [] => True
  | k :: rest => t <= observed k /\ steady_clock (observed k) rest
  end.

(** The first and the last character of a text. *)
Definition first_char (s : string) : option ascii :=
  match s with
  | EmptyString => None
  | String c _ => Some c
  end.

Fixpoint last_char (s : string) : option ascii :=
  match s with
  | EmptyString => None
  | String c EmptyString => Some c
  | String _ rest => last_char rest
  end.

(** A non-empty text without white space at either end. *)
Definition trimmed (s : string) : Prop :=
  (exists c, first_char s = Some c /\ isspace c = false)
  /\ (exists c, last_char s = Some c /\ isspace c = false).

(** Bounds of the two rolling containers. *)
Definition within_bounds (s : State) : Prop :=
  (List.length (history s) <= HISTORY_CAP)%nat
  /\ (List.length (serial_buffer s) <= BUFFER_MAXLEN)%nat.

(** ** Sample inputs *)

Definition open_state : State :=
  mkState (Some (mkSerial "COM3" true)) [] [] true.

Definition closed_state : State :=
  mkState (Some (mkSerial "COM3" false)) [] [] true.

Definition line_at (t : Q) (text : string) : Tick :=
  mkTick (Some (String.length text)) (Some text) t.

Definition failing_read : Tick := mkTick (Some 4%nat) None 0.

Definition request_for (cmd : string) : option Request :=
  Some (mkRequest (Some cmd) None None).

(** [PING] sent at 0; the device line [ACK PING] is observed at 0.120. *)
Definition ping_env : SendEnv :=
  mkSendEnv 0 true
    (mkWaitEnv 0.001
       [mkPoll 0.002 []; mkPoll 0.110 []; mkPoll 0.125 [line_at 0.120 ("ACK PING" ++ LF)%string]])
    "2025-08-01T10:00:00".

(** The device never answers: the poll at 2.005 is past the timeout. *)
Definition silent_env : SendEnv :=
  mkSendEnv 0 true (mkWaitEnv 0.001 [mkPoll 0.002 []; mkPoll 2.005 []])
    "2025-08-01T10:00:05".

(** The device answers with the very text of the sentinel. *)
Definition echo_env : SendEnv :=
  mkSendEnv 0 true
    (mkWaitEnv 0.001 [mkPoll 0.002 []; mkPoll 0.125 [line_at 0.120 "No response"]])
    "2025-08-01T10:00:10".

(** [BADCMD] answered by the line [ERR unknown], observed 50 ms later. *)
Definition badcmd_env : SendEnv :=
  mkSendEnv 0 true
    (mkWaitEnv 0.001 [mkPoll 0.002 []; mkPoll 0.055 [line_at 0.050 "ERR unknown"]])
    "2025-08-01T10:00:20".

(** A burst of 103 lines, observed at 1, 2, ..., 103. *)
Definition burst : list Tick :=
  map (fun n => line_at (inject_Z (Z.of_nat n)) "OK") (seq 1 103).

(** A second wait, started at 0.200, whose first poll meets no new line. *)
Definition again_env : WaitEnv := mkWaitEnv 0.200 [mkPoll 0.201 []].

(** The port cannot be opened. *)
Definition refusing : ConnectEnv := mkConnectEnv None (Some "could not open port 'COM9'").

Definition connect_request (p : string) : option Request :=
  Some (mkRequest None (Some p) None).

(** A day of the backend: a line arrives, a command is answered, the log is
    read and cleared, a [/connect] fails, the reconnect loop heals. *)
Definition sample_actions : list Action :=
  [ActListener (line_at 0.010 "READY"); ActSend ping_env (request_for "PING");
   ActGetLog None; ActStatus true; ActClearLog None;
   ActConnect refusing (connect_request "COM9");
   ActReconnect (mkReconnectTick false true);
   ActSend silent_env (request_for "NOP")].

(** * Properties *)

(** ** Arithmetic and text *)

Lemma Qltb_lt (x y : Q) : Qltb x y = true <-> x < y.
Proof.
  unfold Qltb. rewrite negb_true_iff. split; intro H.
  - destruct (Qlt_le_dec x y) as [Hlt | Hle]; [exact Hlt|].
    apply Qle_bool_iff in Hle. congruence.
  - destruct (Qle_bool y x) eqn:E; [|reflexivity].
    apply Qle_bool_iff in E. lra.
Qed.

Lemma Qltb_ge (x y : Q) : Qltb x y = false <-> y <= x.
Proof.
  unfold Qltb. rewrite negb_false_iff. apply Qle_bool_iff.
Qed.

Lemma qualifies_true (since_time : Q) (r : LineRecord) :
  qualifies since_time r = true <-> since_time - grace <= timestamp r.
Proof. unfold qualifies. apply Qle_bool_iff. Qed.

Lemma qualifies_false (since_time : Q) (r : LineRecord) :
  qualifies since_time r = false <-> ~ since_time - grace <= timestamp r.
Proof.
  rewrite <- qualifies_true. destruct (qualifies since_time r); split; congruence.
Qed.

Lemma startswith_spec (s p : string) : startswith s p = true <-> begins_with s p.
Proof.
  unfold startswith, begins_with. revert s.
  induction p as [|a p IH]; intros s.
  - split; [intros _; exists s; reflexivity | intros _; now destruct s].
  - destruct s as [|b s]; simpl.
    + split; [discriminate | intros [rest H]; discriminate].
    + destruct (ascii_dec a b) as [->|Hne].
      * rewrite IH. split; intros [rest H]; exists rest.
        -- now rewrite H.
        -- now inversion H.
      * split; [discriminate | intros [rest H]; inversion H; congruence].
Qed.

(** ** The scan of one poll *)

Lemma scan_first (since_time : Q) (items : list LineRecord) (r : LineRecord) :
  first_qualifying since_time items r -> scan since_time items = Some (data r).
Proof.
  intros (l1 & l2 & -> & Hr & Hbefore).
  induction l1 as [|x l1 IH]; simpl.
  - apply qualifies_true in Hr. now rewrite Hr.
  - assert (Hx : qualifies since_time x = false)
      by (apply qualifies_false, Hbefore; now left).
    rewrite Hx. apply IH. intros y Hy. apply Hbefore. now right.
Qed.

Lemma scan_some (since_time : Q) (items : list LineRecord) (d : string) :
  scan since_time items = Some d ->
  exists r, first_qualifying since_time items r /\ data r = d.
Proof.
  induction items as [|x items IH]; simpl; [discriminate|].
  destruct (qualifies since_time x) eqn:Hx.
  - intros [= <-]. exists x. split; [|reflexivity].
    exists [], items. repeat split.
    + now apply qualifies_true.
    + intros y [].
  - intros H. destruct (IH H) as (r & (l1 & l2 & -> & Hr & Hbefore) & Hd).
    exists r. split; [|exact Hd].
    exists (x :: l1), l2. repeat split; [exact Hr|].
    intros y [<- | Hy]; [now apply qualifies_false | now apply Hbefore].
Qed.

Lemma scan_none (since_time : Q) (items : list LineRecord) :
  scan since_time items = None <->
  forall x, In x items -> ~ since_time - grace <= timestamp x.
Proof.
  induction items as [|x items IH]; simpl.
  - split; [intros _ y [] | reflexivity].
  - destruct (qualifies since_time x) eqn:Hx.
    + split; [discriminate|]. intros H. exfalso.
      apply (H x); [now left | now apply qualifies_true].
    + rewrite IH. split.
      * intros H y [<- | Hy]; [now apply qualifies_false | now apply H].
      * intros H y Hy. apply H. now right.
Qed.

Lemma first_qualifying_exists (since_time : Q) (items : list LineRecord) :
  (exists x, In x items /\ since_time - grace <= timestamp x) ->
  exists r, first_qualifying since_time items r.
Proof.
  intros (x & Hin & Hx).
  destruct (scan since_time items) as [d|] eqn:Hscan.
  - destruct (scan_some _ _ _ Hscan) as (r & Hr & _). now exists r.
  - exfalso. exact (proj1 (scan_none _ _) Hscan x Hin Hx).
Qed.

Lemma first_qualifying_unique (since_time : Q) (items : list LineRecord)
  (r r' : LineRecord) :
  first_qualifying since_time items r -> first_qualifying since_time items r' ->
  data r = data r'.
Proof.
  intros H H'. apply scan_first in H. apply scan_first in H'. congruence.
Qed.

(** Buffer order decides, not the timestamps: of two qualifying records the
    one appended first is returned even when the other was observed earlier. *)
Example scan_buffer_order :
  scan 3 [mkLine 1 "stale"; mkLine 5 "late"; mkLine 3 "early"] = Some "late".
Proof. reflexivity. Qed.

(** ** The wait loop *)

Lemma wait_loop_skips_idle (since_time timeout start0 : Q) (pre rest : list Poll) :
  forall s, idle since_time timeout start0 pre s ->
  match wait_loop since_time timeout start0 rest (after_polls pre s) with
  | Some (d, s2, _) =>
      exists tr, wait_loop since_time timeout start0 (pre ++ rest) s = Some (d, s2, tr)
  | None => wait_loop since_time timeout start0 (pre ++ rest) s = None
  end.
Proof.
  induction pre as [|p pre IH]; intros s Hidle; simpl.
  - destruct (wait_loop _ _ _ rest s) as [[[d s2] tr]|]; [now exists tr | reflexivity].
  - destruct Hidle as (Hin & Hnone & Hidle).
    apply Qltb_lt in Hin. rewrite Hin.
    apply scan_none in Hnone. rewrite Hnone.
    specialize (IH _ Hidle).
    destruct (wait_loop _ _ _ rest _) as [[[d s2] tr]|].
    + destruct IH as (tr' & ->). eexists. reflexivity.
    + now rewrite IH.
Qed.

Lemma wait_loop_match (since_time timeout start0 : Q) (pre post : list Poll)
  (p : Poll) (s : State) (r : LineRecord) :
  idle since_time timeout start0 pre s ->
  now p - start0 < timeout ->
  first_qualifying since_time
    (serial_buffer (listener_progress (arrivals p) (after_polls pre s))) r ->
  exists tr,
    wait_loop since_time timeout start0 (pre ++ p :: post) s
    = Some (data r, listener_progress (arrivals p) (after_polls pre s), tr).
Proof.
  intros Hidle Hin Hr.
  pose proof (wait_loop_skips_idle since_time timeout start0 pre (p :: post) s Hidle) as H.
  simpl in H. apply Qltb_lt in Hin. rewrite Hin in H.
  rewrite (scan_first _ _ _ Hr) in H. exact H.
Qed.

Lemma wait_loop_timeout (since_time timeout start0 : Q) (pre post : list Poll)
  (p : Poll) (s : State) :
  idle since_time timeout start0 pre s ->
  timeout <= now p - start0 ->
  exists tr,
    wait_loop since_time timeout start0 (pre ++ p :: post) s
    = Some (NO_RESPONSE, listener_progress (arrivals p) (after_polls pre s), tr).
Proof.
  intros Hidle Hout.
  pose proof (wait_loop_skips_idle since_time timeout start0 pre (p :: post) s Hidle) as H.
  simpl in H. apply Qltb_ge in Hout. rewrite Hout in H. exact H.
Qed.

Lemma wait_for_new_response_match (since_time timeout : Q) (env : WaitEnv)
  (pre post : list Poll) (p : Poll) (s : State) (r : LineRecord) :
  polls env = pre ++ p :: post ->
  idle since_time timeout (start env) pre s ->
  now p - start env < timeout ->
  first_qualifying since_time
    (serial_buffer (listener_progress (arrivals p) (after_polls pre s))) r ->
  exists tr,
    wait_for_new_response since_time timeout env s
    = Some (data r, listener_progress (arrivals p) (after_polls pre s), tr).
Proof.
  intros Hpolls Hidle Hin Hr. unfold wait_for_new_response. rewrite Hpolls.
  destruct (wait_loop_match _ _ _ pre post p s r Hidle Hin Hr) as (tr & ->).
  eexists. reflexivity.
Qed.

Lemma wait_for_new_response_timeout (since_time timeout : Q) (env : WaitEnv)
  (pre post : list Poll) (p : Poll) (s : State) :
  polls env = pre ++ p :: post ->
  idle since_time timeout (start env) pre s ->
  timeout <= now p - start env ->
  exists tr,
    wait_for_new_response since_time timeout env s
    = Some (NO_RESPONSE, listener_progress (arrivals p) (after_polls pre s), tr).
Proof.
  intros Hpolls Hidle Hout. unfold wait_for_new_response. rewrite Hpolls.
  destruct (wait_loop_timeout _ _ _ pre post p s Hidle Hout) as (tr & ->).
  eexists. reflexivity.
Qed.

(** The loop returns: once the polls keep pace with the clock and there are
    enough of them to reach the timeout, a result comes out. *)
Lemma wait_loop_returns (since_time timeout start0 : Q) (ps : list Poll) :
  forall prev s,
    paced prev ps ->
    (1 <= List.length ps)%nat ->
    timeout + POLL <= prev - start0 + inject_Z (Z.of_nat (List.length ps)) * POLL ->
    exists d s' tr, wait_loop since_time timeout start0 ps s = Some (d, s', tr).
Proof.
  induction ps as [|p rest IH]; intros prev s Hpaced Hlen Hfuel.
  - simpl in Hlen. lia.
  - destruct Hpaced as (Hprev & Hpaced). cbn [wait_loop].
    destruct (Qltb (now p - start0) timeout) eqn:Hin.
    2: { do 3 eexists. reflexivity. }
    destruct (scan since_time _) as [d|]; [do 3 eexists; reflexivity|].
    apply Qltb_lt in Hin.
    change (List.length (p :: rest)) with (S (List.length rest)) in Hfuel.
    rewrite Nat2Z.inj_succ in Hfuel. unfold Z.succ in Hfuel.
    rewrite inject_Z_plus in Hfuel. change (inject_Z 1) with 1 in Hfuel.
    unfold POLL in *.
    destruct rest as [|q rest'].
    + change (inject_Z (Z.of_nat (List.length (@nil Poll)))) with 0 in Hfuel.
      exfalso. lra.
    + destruct (IH (now p + 0.01) (listener_progress (arrivals p) s) Hpaced)
        as (d & s' & tr & ->).
      * simpl. lia.
      * lra.
      * do 3 eexists. reflexivity.
Qed.

Lemma wait_for_new_response_returns (since_time timeout : Q) (env : WaitEnv) (s : State) :
  paced (start env) (polls env) ->
  (1 <= List.length (polls env))%nat ->
  timeout + POLL <= inject_Z (Z.of_nat (List.length (polls env))) * POLL ->
  exists d s' tr, wait_for_new_response since_time timeout env s = Some (d, s', tr).
Proof.
  intros Hpaced Hlen Hfuel. unfold wait_for_new_response.
  destruct (wait_loop_returns since_time timeout (start env) (polls env)
              (start env) s Hpaced Hlen) as (d & s' & tr & ->).
  - lra.
  - do 3 eexists. reflexivity.
Qed.

(** What a result of the loop can be. *)
Lemma wait_loop_result (since_time timeout start0 : Q) (ps : list Poll) :
  forall s d s' tr,
    wait_loop since_time timeout start0 ps s = Some (d, s', tr) ->
    (exists r, first_qualifying since_time (serial_buffer s') r /\ data r = d)
    \/ (d = NO_RESPONSE /\ exists p, In p ps /\ timeout <= now p - start0).
Proof.
  induction ps as [|p rest IH]; intros s d s' tr; simpl; [discriminate|].
  destruct (Qltb (now p - start0) timeout) eqn:Hin.
  - destruct (scan since_time _) as [d0|] eqn:Hscan.
    + intros [= <- <- <-]. left. now apply scan_some.
    + destruct (wait_loop _ _ _ rest _) as [[[d1 s1] tr1]|] eqn:Hrest; [|discriminate].
      intros [= <- <- <-].
      destruct (IH _ _ _ _ Hrest) as [Hline | (Hd & q & Hq & Hout)].
      * now left.
      * right. split; [exact Hd|]. exists q. split; [now right | exact Hout].
  - intros [= <- <- <-]. right. split; [reflexivity|].
    exists p. split; [now left | now apply Qltb_ge].
Qed.

(** ** Correlator: claims *)

(** C3.  At the first poll whose snapshot holds a record observed at or after
    [since - grace] (the polls before it being within the timeout and finding
    none), [wait_for_new_response] returns the data of the first such record
    in buffer order; when the clock reaches the timeout before any poll finds
    one, it returns the sentinel ["No response"]. *)
Theorem correlator_first_match_else_sentinel :
  (forall since_time timeout env s pre p post,
      polls env = pre ++ p :: post ->
      idle since_time timeout (start env) pre s ->
      now p - start env < timeout ->
      (exists x,
          In x (serial_buffer (listener_progress (arrivals p) (after_polls pre s)))
          /\ since_time - grace <= timestamp x) ->
      exists r tr,
        first_qualifying since_time
          (serial_buffer (listener_progress (arrivals p) (after_polls pre s))) r
        /\ wait_for_new_response since_time timeout env s
           = Some (data r, listener_progress (arrivals p) (after_polls pre s), tr))
  /\
  (forall since_time timeout env s pre p post,
      polls env = pre ++ p :: post ->
      idle since_time timeout (start env) pre s ->
      timeout <= now p - start env ->
      exists tr,
        wait_for_new_response since_time timeout env s
        = Some (NO_RESPONSE, listener_progress (arrivals p) (after_polls pre s), tr)).
Proof.
  split.
  - intros since_time timeout env s pre p post Hpolls Hidle Hin Hsome.
    destruct (first_qualifying_exists _ _ Hsome) as (r & Hr).
    destruct (wait_for_new_response_match _ _ _ _ _ _ _ _ Hpolls Hidle Hin Hr)
      as (tr & Hwait).
    exists r, tr. split; assumption.
  - intros since_time timeout env s pre p post Hpolls Hidle Hout.
    exact (wait_for_new_response_timeout _ _ _ _ _ _ _ Hpolls Hidle Hout).
Qed.

(** C4.  Whatever [wait_for_new_response] returns is either the data of a
    buffered record with [timestamp >= since - grace], or the sentinel produced
    after a clock reading at or past the timeout. *)
Theorem correlator_respects_grace :
  forall since_time timeout env s d s' tr,
    wait_for_new_response since_time timeout env s = Some (d, s', tr) ->
    (exists r,
        In r (serial_buffer s') /\ data r = d /\ since_time - grace <= timestamp r)
    \/ (d = NO_RESPONSE
        /\ exists p, In p (polls env) /\ timeout <= now p - start env).
Proof.
  intros since_time timeout env s d s' tr. unfold wait_for_new_response.
  destruct (wait_loop _ _ _ _ _) as [[[d1 s1] tr1]|] eqn:Hloop; [|discriminate].
  intros [= <- <- <-].
  destruct (wait_loop_result _ _ _ _ _ _ _ _ Hloop)
    as [(r & (l1 & l2 & Hbuf & Hr & _) & Hd) | Hsentinel].
  - left. exists r. repeat split; try assumption.
    rewrite Hbuf. apply in_or_app. right. now left.
  - now right.
Qed.

(** C5.  A record observed at [t0] and buffered when the correlator polls
    within the timeout is returned for [since = t1] whenever [t1 <= t0 + grace]
    and no record buffered before it qualifies. *)
Theorem correlator_returns_line_within_grace :
  forall t0 t1 timeout env s pre p post l1 r l2,
    polls env = pre ++ p :: post ->
    idle t1 timeout (start env) pre s ->
    now p - start env < timeout ->
    serial_buffer (listener_progress (arrivals p) (after_polls pre s)) = l1 ++ r :: l2 ->
    timestamp r == t0 ->
    t1 <= t0 + grace ->
    (forall x, In x l1 -> ~ t1 - grace <= timestamp x) ->
    exists tr,
      wait_for_new_response t1 timeout env s
      = Some (data r, listener_progress (arrivals p) (after_polls pre s), tr).
Proof.
  intros t0 t1 timeout env s pre p post l1 r l2 Hpolls Hidle Hin Hbuf Ht0 Hle Hbefore.
  apply (wait_for_new_response_match _ _ _ pre post p s r Hpolls Hidle Hin).
  exists l1, l2. repeat split; [exact Hbuf | lra | exact Hbefore].
Qed.

(** ** History *)

Lemma keep_last_length {A : Type} (n : nat) (l : list A) :
  (List.length (keep_last n l) <= n)%nat.
Proof. unfold keep_last. rewrite length_skipn. lia. Qed.

Lemma keep_last_short {A : Type} (n : nat) (l : list A) :
  (List.length l <= n)%nat -> keep_last n l = l.
Proof.
  intros H. unfold keep_last.
  replace (List.length l - n)%nat with 0%nat by lia. reflexivity.
Qed.

Lemma keep_last_app {A : Type} (n : nat) (l l' : list A) :
  keep_last n (keep_last n l ++ l') = keep_last n (l ++ l').
Proof.
  destruct (Nat.le_gt_cases (List.length l) n) as [Hshort | Hlong].
  - now rewrite (keep_last_short n l Hshort).
  - unfold keep_last at 1 3.
    rewrite !length_app. unfold keep_last. rewrite length_skipn.
    set (k := (List.length l - n)%nat).
    replace (List.length l - k + List.length l' - n)%nat with (List.length l') by lia.
    replace (List.length l + List.length l' - n)%nat with (List.length l' + k)%nat by lia.
    rewrite <- skipn_skipn. f_equal.
    rewrite skipn_app. replace (k - List.length l)%nat with 0%nat by lia.
    reflexivity.
Qed.

Lemma logged_app (tr1 tr2 : Trace) : logged (tr1 ++ tr2) = logged tr1 ++ logged tr2.
Proof.
  induction tr1 as [|e tr1 IH]; simpl; [reflexivity|].
  destruct e; simpl; now rewrite ?IH.
Qed.

Lemma log_command_history (cmd response stamp : string) (s : State) :
  (List.length (history s) <= HISTORY_CAP)%nat ->
  history (log_command cmd response stamp s)
  = keep_last HISTORY_CAP (history s ++ [mkExchange cmd response stamp]).
Proof.
  intros Hcap. unfold log_command, keep_last.
  rewrite length_app. simpl List.length.
  destruct (Nat.ltb_spec HISTORY_CAP (List.length (history s) + 1)) as [Hfull | Hroom].
  - replace (List.length (history s) + 1 - HISTORY_CAP)%nat with 1%nat by lia.
    reflexivity.
  - replace (List.length (history s) + 1 - HISTORY_CAP)%nat with 0%nat by lia.
    reflexivity.
Qed.

Lemma serial_listener_pass_frame (k : Tick) (s : State) :
  let s' := snd (fst (serial_listener_pass k s)) in
  ser s' = ser s /\ history s' = history s /\ listener_active s' = listener_active s.
Proof.
  unfold serial_listener_pass.
  destruct (ser s) eqn:Hser; [|simpl; rewrite Hser; now repeat split].
  destruct (probe k) as [[|n]|]; try (simpl; rewrite Hser; now repeat split).
  destruct (readline k) as [raw|]; [|simpl; rewrite Hser; now repeat split].
  destruct (truthy (strip raw)); simpl; rewrite Hser; now repeat split.
Qed.

Lemma serial_listener_frame (ks : list Tick) :
  forall s,
    let s' := snd (fst (serial_listener ks s)) in
    ser s' = ser s /\ history s' = history s /\ listener_active s' = listener_active s.
Proof.
  induction ks as [|k ks IH]; intros s; simpl; [now repeat split|].
  pose proof (serial_listener_pass_frame k s) as Hpass.
  destruct (serial_listener_pass k s) as [[o s1] tr1]. simpl in Hpass.
  destruct o; simpl; try exact Hpass.
  specialize (IH s1).
  destruct (serial_listener ks s1) as [[o2 s2] tr2]. simpl in *.
  destruct Hpass as (H1 & H2 & H3). destruct IH as (I1 & I2 & I3).
  repeat split; congruence.
Qed.

Lemma wait_loop_frame (since_time timeout start0 : Q) (ps : list Poll) :
  forall s d s' tr,
    wait_loop since_time timeout start0 ps s = Some (d, s', tr) ->
    ser s' = ser s /\ history s' = history s
    /\ listener_active s' = listener_active s /\ logged tr = [].
Proof.
  induction ps as [|p rest IH]; intros s d s' tr; simpl; [discriminate|].
  pose proof (serial_listener_frame (arrivals p) s) as Hframe.
  fold (listener_progress (arrivals p) s) in Hframe. simpl in Hframe.
  destruct Hframe as (Hser & Hhist & Hflag).
  destruct (Qltb (now p - start0) timeout).
  - destruct (scan since_time _) as [d0|].
    + intros [= <- <- <-]. now repeat split.
    + destruct (wait_loop _ _ _ rest _) as [[[d1 s1] tr1]|] eqn:Hrest; [|discriminate].
      intros [= <- <- <-].
      destruct (IH _ _ _ _ Hrest) as (-> & -> & -> & Hlog).
      now repeat split.
  - intros [= <- <- <-]. now repeat split.
Qed.

Lemma wait_for_new_response_frame (since_time timeout : Q) (env : WaitEnv)
  (s : State) (d : string) (s' : State) (tr : Trace) :
  wait_for_new_response since_time timeout env s = Some (d, s', tr) ->
  ser s' = ser s /\ history s' = history s
  /\ listener_active s' = listener_active s /\ logged tr = [].
Proof.
  unfold wait_for_new_response.
  destruct (wait_loop _ _ _ _ _) as [[[d1 s1] tr1]|] eqn:Hloop; [|discriminate].
  intros [= <- <- <-]. exact (wait_loop_frame _ _ _ _ _ _ _ _ Hloop).
Qed.

Section HistoryOfSend.

Context {Json : Type} (json_loads : string -> option Json).

Lemma send_command_history (env : SendEnv) (req : option Request) (s : State)
  (resp : HttpResponse Json) (s' : State) (tr : Trace) :
  (List.length (history s) <= HISTORY_CAP)%nat ->
  send_command json_loads env req s = Some (resp, s', tr) ->
  history s' = keep_last HISTORY_CAP (history s ++ logged tr).
Proof.
  intros Hcap. unfold send_command.
  assert (Hsame : history s = keep_last HISTORY_CAP (history s ++ []))
    by (rewrite app_nil_r; now rewrite keep_last_short).
  destruct (negb (require_password req)); [now intros [= <- <- <-]|].
  destruct req as [r|]; [|now intros [= <- <- <-]].
  destruct (command r) as [c|]; [|now intros [= <- <- <-]].
  destruct (ser s) as [h|]; [|now intros [= <- <- <-]].
  destruct (negb (is_open h)); [now intros [= <- <- <-]|].
  destruct (write_ok env); [|now intros [= <- <- <-]].
  destruct (wait_for_new_response _ _ _ _) as [[[response s1] tr1]|] eqn:Hwait;
    [|discriminate].
  intros [= <- <- <-].
  destruct (wait_for_new_response_frame _ _ _ _ _ _ _ Hwait) as (_ & Hhist & _ & Hlog).
  rewrite log_command_history by (rewrite Hhist; exact Hcap).
  cbn [app logged]. rewrite logged_app, Hlog, Hhist. reflexivity.
Qed.

Lemma send_all_history (calls : list (SendEnv * option Request)) :
  forall s s' tr,
    (List.length (history s) <= HISTORY_CAP)%nat ->
    send_all json_loads calls s = Some (s', tr) ->
    history s' = keep_last HISTORY_CAP (history s ++ logged tr).
Proof.
  induction calls as [|[env req] calls IH]; intros s s' tr Hcap; simpl.
  - intros [= <- <-]. rewrite app_nil_r. now rewrite keep_last_short.
  - destruct (send_command json_loads env req s) as [[[resp s1] tr1]|] eqn:Hsend;
      [|discriminate].
    destruct (send_all json_loads calls s1) as [[s2 tr2]|] eqn:Hrest; [|discriminate].
    intros [= <- <-].
    pose proof (send_command_history _ _ _ _ _ _ Hcap Hsend) as H1.
    assert (Hcap1 : (List.length (history s1) <= HISTORY_CAP)%nat)
      by (rewrite H1; apply keep_last_length).
    rewrite (IH _ _ _ Hcap1 Hrest), H1, logged_app, keep_last_app, app_assoc.
    reflexivity.
Qed.

End HistoryOfSend.

(** C8.  Starting from a history within the cap (it starts empty), after any
    sequence of [/send] calls the history has at most 50 entries and is the
    last 50, in insertion order, of the old entries followed by the exchanges
    the calls logged: evictions take the oldest entries. *)
Theorem history_capped_oldest_evicted :
  forall (Json : Type) (json_loads : string -> option Json)
         (calls : list (SendEnv * option Request)) (s s' : State) (tr : Trace),
    (List.length (history s) <= 50)%nat ->
    send_all json_loads calls s = Some (s', tr) ->
    (List.length (history s') <= 50)%nat
    /\ history s' = keep_last 50 (history s ++ logged tr).
Proof.
  intros Json json_loads calls s s' tr Hcap Hrun.
  pose proof (send_all_history json_loads calls s s' tr Hcap Hrun) as H.
  split; [|exact H]. rewrite H. apply keep_last_length.
Qed.

(** ** [/send] *)

Section SendProperties.

Context {Json : Type} (json_loads : string -> option Json).

(** With a command and an open handle the route reaches the write. *)
Lemma send_command_connected (env : SendEnv) (r : Request) (c : string)
  (s : State) (h : Serial) :
  command r = Some c -> ser s = Some h -> is_open h = true -> write_ok env = true ->
  send_command json_loads env (Some r) s
  = match wait_for_new_response (since env) DEFAULT_TIMEOUT (waiting env) s with
    | None => None
    | Some (response, s1, tr) =>
        Some (classify json_loads response,
              log_command (strip c) response (logged_at env) s1,
              [EvTime (since env); EvWrite (strip c ++ LF)%string] ++ tr
                ++ [EvLog (mkExchange (strip c) response (logged_at env))])
    end.
Proof.
  intros Hc Hser Hopen Hwrite. unfold send_command.
  simpl. rewrite Hc, Hser, Hopen, Hwrite. reflexivity.
Qed.

(** The route returns once the polls keep pace with the clock and reach the
    timeout. *)
Lemma send_command_returns (env : SendEnv) (req : option Request) (s : State) :
  paced (start (waiting env)) (polls (waiting env)) ->
  (1 <= List.length (polls (waiting env)))%nat ->
  DEFAULT_TIMEOUT + POLL
  <= inject_Z (Z.of_nat (List.length (polls (waiting env)))) * POLL ->
  exists resp s' tr, send_command json_loads env req s = Some (resp, s', tr).
Proof.
  intros Hpaced Hlen Hfuel. unfold send_command.
  destruct (negb (require_password req)); [do 3 eexists; reflexivity|].
  destruct req as [r|]; [|do 3 eexists; reflexivity].
  destruct (command r) as [c|]; [|do 3 eexists; reflexivity].
  destruct (ser s) as [h|]; [|do 3 eexists; reflexivity].
  destruct (negb (is_open h)); [do 3 eexists; reflexivity|].
  destruct (write_ok env); [|do 3 eexists; reflexivity].
  destruct (wait_for_new_response_returns (since env) DEFAULT_TIMEOUT (waiting env) s
              Hpaced Hlen Hfuel) as (d & s1 & tr & ->).
  do 3 eexists. reflexivity.
Qed.

(** Whenever the route writes, the write is its second effect, right after
    the clock reading: no acquisition of the lock precedes it. *)
Lemma send_command_write_first (env : SendEnv) (req : option Request) (s : State)
  (resp : HttpResponse Json) (s' : State) (tr : Trace) :
  send_command json_loads env req s = Some (resp, s', tr) ->
  tr = [] \/ exists payload rest, tr = EvTime (since env) :: EvWrite payload :: rest.
Proof.
  unfold send_command.
  destruct (negb (require_password req)); [intros [= <- <- <-]; now left|].
  destruct req as [r|]; [|intros [= <- <- <-]; now left].
  destruct (command r) as [c|]; [|intros [= <- <- <-]; now left].
  destruct (ser s) as [h|]; [|intros [= <- <- <-]; now left].
  destruct (negb (is_open h)); [intros [= <- <- <-]; now left|].
  destruct (write_ok env).
  - destruct (wait_for_new_response _ _ _ _) as [[[response s1] tr1]|]; [|discriminate].
    intros [= <- <- <-]. right. do 2 eexists. reflexivity.
  - intros [= <- <- <-]. right. do 2 eexists. reflexivity.
Qed.

Lemma send_all_returns (calls : list (SendEnv * option Request)) :
  forall s,
    Forall (fun call => covers_timeout (fst call)) calls ->
    exists s' tr, send_all json_loads calls s = Some (s', tr).
Proof.
  induction calls as [|[env req] calls IH]; intros s Hall; simpl.
  - do 2 eexists. reflexivity.
  - inversion Hall as [|call rest (Hpaced & Hlen & Hfuel) Hrest]; subst.
    destruct (send_command_returns env req s Hpaced Hlen Hfuel)
      as (resp & s1 & tr1 & ->).
    destruct (IH s1 Hrest) as (s2 & tr2 & ->).
    do 2 eexists. reflexivity.
Qed.

Lemma classify_code (response : string) : code (classify json_loads response) = 200%nat.
Proof.
  unfold classify.
  destruct (String.eqb response NO_RESPONSE); [reflexivity|].
  destruct (json_loads response); [reflexivity|].
  destruct (startswith response "ACK"); [reflexivity|].
  destruct (startswith response "ERR"); reflexivity.
Qed.

End SendProperties.

(** C6.  With a command but no handle, or a handle that is not open, [/send]
    answers "Serial port not available" (500) at once: the state is unchanged
    and no effect is performed (no write, no poll, no sleep), whatever the
    environment; that answer differs from the one given on a timeout. *)
Theorem send_command_disconnected_immediate :
  forall (Json : Type) (json_loads : string -> option Json)
         (env : SendEnv) (r : Request) (c : string) (s : State),
    command r = Some c ->
    has_open_connection s = false ->
    send_command json_loads env (Some r) s = Some (not_available, s, [])
    /\ classify json_loads NO_RESPONSE
       = jsonify (StatusMessage "error" "No response from robot")
    /\ @not_available Json <> classify json_loads NO_RESPONSE.
Proof.
  intros Json json_loads env r c s Hc Hclosed.
  split; [|split].
  - unfold send_command, has_open_connection in *. simpl. rewrite Hc.
    destruct (ser s) as [h|]; [|reflexivity]. now rewrite Hclosed.
  - reflexivity.
  - intros H. apply (f_equal code) in H. rewrite classify_code in H. discriminate.
Qed.

(** C7.  For a response text other than the sentinel, [/send] answers with the
    decoded payload when the text decodes as JSON; otherwise with status
    "success" and the text when it begins with ACK; otherwise with status
    "error" and the text when it begins with ERR; otherwise with status
    "unknown" and the text. *)
Theorem send_command_classification :
  forall (Json : Type) (json_loads : string -> option Json)
         (env : SendEnv) (r : Request) (c : string) (s : State) (h : Serial)
         (response : string) (s1 : State) (tr1 : Trace),
    command r = Some c -> ser s = Some h -> is_open h = true -> write_ok env = true ->
    wait_for_new_response (since env) DEFAULT_TIMEOUT (waiting env) s
    = Some (response, s1, tr1) ->
    response <> NO_RESPONSE ->
    exists resp s' tr,
      send_command json_loads env (Some r) s = Some (resp, s', tr)
      /\ (forall parsed, json_loads response = Some parsed ->
          resp = jsonify (Payload parsed))
      /\ (json_loads response = None -> begins_with response "ACK" ->
          resp = jsonify (StatusMessage "success" response))
      /\ (json_loads response = None -> ~ begins_with response "ACK" ->
          begins_with response "ERR" ->
          resp = jsonify (StatusMessage "error" response))
      /\ (json_loads response = None -> ~ begins_with response "ACK" ->
          ~ begins_with response "ERR" ->
          resp = jsonify (StatusMessage "unknown" response)).
Proof.
  intros Json json_loads env r c s h response s1 tr1 Hc Hser Hopen Hwrite Hwait Hne.
  rewrite (send_command_connected json_loads env r c s h Hc Hser Hopen Hwrite), Hwait.
  do 3 eexists. split; [reflexivity|].
  unfold classify.
  apply String.eqb_neq in Hne. rewrite Hne.
  repeat split.
  - intros parsed ->. reflexivity.
  - intros -> Hack. apply startswith_spec in Hack. now rewrite Hack.
  - intros -> Hack Herr.
    destruct (startswith response "ACK") eqn:E;
      [exfalso; apply Hack; now apply startswith_spec|].
    apply startswith_spec in Herr. now rewrite Herr.
  - intros -> Hack Herr.
    destruct (startswith response "ACK") eqn:E;
      [exfalso; apply Hack; now apply startswith_spec|].
    destruct (startswith response "ERR") eqn:E';
      [exfalso; apply Herr; now apply startswith_spec|].
    reflexivity.
Qed.

(** C9.  The sentinel is the string ["No response"] and [/send] compares the
    response with it before classifying: when the first qualifying device line
    reads exactly ["No response"], the caller gets the answer "No response from
    robot", the same answer as a call whose wait ran into the timeout. *)
Theorem device_line_no_response_reads_as_timeout :
  forall (Json : Type) (json_loads : string -> option Json)
         (env env' : SendEnv) (r : Request) (c : string) (s : State) (h : Serial)
         (pre post pre' post' : list Poll) (p p' : Poll) (line : LineRecord),
    command r = Some c -> ser s = Some h -> is_open h = true ->
    (* [env]: a device line with the sentinel's text is correlated *)
    write_ok env = true ->
    polls (waiting env) = pre ++ p :: post ->
    idle (since env) DEFAULT_TIMEOUT (start (waiting env)) pre s ->
    now p - start (waiting env) < DEFAULT_TIMEOUT ->
    first_qualifying (since env)
      (serial_buffer (listener_progress (arrivals p) (after_polls pre s))) line ->
    data line = "No response" ->
    (* [env']: nothing qualifies before the timeout *)
    write_ok env' = true ->
    polls (waiting env') = pre' ++ p' :: post' ->
    idle (since env') DEFAULT_TIMEOUT (start (waiting env')) pre' s ->
    DEFAULT_TIMEOUT <= now p' - start (waiting env') ->
    NO_RESPONSE = "No response"
    /\ exists s1 tr1 s2 tr2,
        send_command json_loads env (Some r) s
        = Some (jsonify (StatusMessage "error" "No response from robot"), s1, tr1)
        /\ send_command json_loads env' (Some r) s
           = Some (jsonify (StatusMessage "error" "No response from robot"), s2, tr2).
Proof.
  intros Json json_loads env env' r c s h pre post pre' post' p p' line
    Hc Hser Hopen Hwrite Hpolls Hidle Hin Hline Hdata Hwrite' Hpolls' Hidle' Hout.
  split; [reflexivity|].
  destruct (wait_for_new_response_match _ _ _ _ _ _ _ _ Hpolls Hidle Hin Hline)
    as (tr & Hwait).
  destruct (wait_for_new_response_timeout _ _ _ _ _ _ _ Hpolls' Hidle' Hout)
    as (tr' & Hwait').
  rewrite (send_command_connected json_loads env r c s h Hc Hser Hopen Hwrite), Hwait.
  rewrite (send_command_connected json_loads env' r c s h Hc Hser Hopen Hwrite'), Hwait'.
  rewrite Hdata. do 4 eexists. split; reflexivity.
Qed.

(** ** [/connect] *)

(** C10.  [/connect] with a port, while a connection is open: the old handle
    is closed before the new one is opened, so when the opening raises the
    route answers with the error text, [ser] still refers to the old handle,
    now closed (it is not reset to [None]), and no connection is open. *)
Theorem connect_failure_closes_old_connection :
  forall (Json : Type) (env : ConnectEnv) (r : Request) (p : string)
         (s : State) (h : Serial) (msg : string),
    port r = Some p -> truthy p = true ->
    ser s = Some h -> is_open h = true ->
    close_raises env = None -> open_raises env = Some msg ->
    exists s',
      @connect Json env (Some r) s
      = (jsonify (StatusMessage "error" msg), s', [EvClose; EvOpen p])
      /\ ser s' = Some (mkSerial (port_name h) false)
      /\ ser s' <> None
      /\ has_open_connection s' = false.
Proof.
  intros Json env r p s h msg Hport Hp Hser Hopen Hclose Hraise.
  eexists. unfold connect. simpl.
  rewrite Hport, Hp, Hser, Hopen, Hclose, Hraise. simpl.
  repeat split. discriminate.
Qed.

(** ** Listener *)

Lemma serial_listener_never_reconnects (ks : list Tick) :
  forall s, existsb touches_connection (snd (serial_listener ks s)) = false.
Proof.
  induction ks as [|k ks IH]; intros s; simpl; [reflexivity|].
  assert (Hpass : existsb touches_connection (snd (serial_listener_pass k s)) = false).
  { unfold serial_listener_pass.
    destruct (ser s); [|reflexivity].
    destruct (probe k) as [[|n]|]; try reflexivity.
    destruct (readline k) as [raw|]; [|reflexivity].
    destruct (truthy (strip raw)); reflexivity. }
  destruct (serial_listener_pass k s) as [[o s1] tr1]. simpl in Hpass.
  destruct o; simpl; try exact Hpass.
  specialize (IH s1). destruct (serial_listener ks s1) as [[o2 s2] tr2].
  simpl in *. rewrite existsb_app, Hpass, IH. reflexivity.
Qed.

(** The listener has no [return]: its loop only ends through an exception of
    the probe, which no handler catches. *)
Lemma serial_listener_never_returns (ks : list Tick) :
  forall s, fst (fst (serial_listener ks s)) <> Returned.
Proof.
  induction ks as [|k ks IH]; intros s; simpl; [discriminate|].
  assert (Hpass : fst (fst (serial_listener_pass k s)) <> Returned).
  { unfold serial_listener_pass.
    destruct (ser s); [|discriminate].
    destruct (probe k) as [[|n]|]; try discriminate.
    destruct (readline k) as [raw|]; [|discriminate].
    destruct (truthy (strip raw)); discriminate. }
  destruct (serial_listener_pass k s) as [[o s1] tr1]. simpl in Hpass.
  destruct o; simpl; try congruence.
  specialize (IH s1). destruct (serial_listener ks s1) as [[o2 s2] tr2].
  exact IH.
Qed.

(** The line buffer stays within its capacity. *)
Lemma deque_append_bounded (maxlen : nat) (x : LineRecord) (d : list LineRecord) :
  (List.length d <= maxlen)%nat ->
  (List.length (deque_append maxlen x d) <= maxlen)%nat.
Proof.
  intros Hd. unfold deque_append.
  destruct (Nat.eqb_spec maxlen 0) as [Hzero | Hpos]; [exact Hd|].
  destruct (Nat.leb_spec maxlen (List.length d)) as [Hfull | Hroom].
  - rewrite length_app. destruct d as [|y d]; simpl in *; lia.
  - rewrite length_app. simpl. lia.
Qed.

(** C2, as the code has it.  When [ser.readline()] raises, the listener
    reports the error and goes on with its next pass: the state, and with it
    the liveness flag and the handle, is unchanged.  In no run does the
    listener assign [listener_active] or [ser], or open or close a
    connection. *)
Theorem listener_read_error_is_swallowed :
  forall (k : Tick) (rest : list Tick) (s : State) (h : Serial) (n : nat),
    ser s = Some h -> probe k = Some (S n) -> readline k = None ->
    serial_listener_pass k s
    = (Continue, s,
       [EvAcquire; EvProbe; EvReadline; EvListenerError; EvRelease; EvSleep POLL])
    /\ fst (fst (serial_listener (k :: rest) s)) = fst (fst (serial_listener rest s))
    /\ snd (fst (serial_listener (k :: rest) s)) = snd (fst (serial_listener rest s))
    /\ (forall ks s0,
           listener_active (snd (fst (serial_listener ks s0))) = listener_active s0
           /\ ser (snd (fst (serial_listener ks s0))) = ser s0
           /\ existsb touches_connection (snd (serial_listener ks s0)) = false).
Proof.
  intros k rest s h n Hser Hprobe Hread.
  assert (Hpass : serial_listener_pass k s
                  = (Continue, s,
                     [EvAcquire; EvProbe; EvReadline; EvListenerError; EvRelease;
                      EvSleep POLL])).
  { unfold serial_listener_pass. now rewrite Hser, Hprobe, Hread. }
  split; [exact Hpass|].
  cbn [serial_listener]. rewrite Hpass.
  destruct (serial_listener rest s) as [[o s'] tr]. simpl.
  repeat split.
  - apply (serial_listener_frame ks s0).
  - apply (serial_listener_frame ks s0).
  - apply serial_listener_never_reconnects.
Qed.

(** C2, as the claim states it, fails: after a read that raises, the listener
    has neither returned nor cleared the liveness flag, and its next pass
    still buffers a line. *)
Lemma listener_read_error_counterexample :
  readline failing_read = None
  /\ listener_active open_state = true
  /\ fst (fst (serial_listener_pass failing_read open_state)) = Continue
  /\ listener_active (snd (fst (serial_listener_pass failing_read open_state))) = true
  /\ ~ (fst (fst (serial_listener_pass failing_read open_state)) = Returned
        /\ listener_active (snd (fst (serial_listener_pass failing_read open_state)))
           = false)
  /\ serial_buffer
       (snd (fst (serial_listener [failing_read; line_at 1 "ACK"] open_state)))
     = [mkLine 1 "ACK"].
Proof.
  repeat split; try reflexivity.
  intros [H _]. discriminate H.
Qed.

(** ** Lock discipline *)

(** C1, evaluated on the code.  [send_command] writes right after reading the
    clock, before any acquisition of [serial_lock]; in the schedule below the
    listener has taken the lock and probed the port when the Gateway writes,
    and reads the line afterwards, still holding the lock. *)
Theorem gateway_write_overlaps_listener_read :
  exists (resp : HttpResponse string) (s' : State) (g : Trace),
    send_command sample_loads ping_env (request_for "PING") open_state
    = Some (resp, s', g)
    /\ firstn 2 g = [EvTime 0; EvWrite ("PING" ++ LF)%string]
    /\ lock_depth (firstn 1 g) 0 = 0%nat
    /\ interleave [Listener; Listener; Gateway; Gateway; Listener] g
         (snd (serial_listener_pass (line_at 0.120 "ACK PING") open_state)) None
       = Some [(Listener, EvAcquire, None);
               (Listener, EvProbe, Some Listener);
               (Gateway, EvTime 0, Some Listener);
               (Gateway, EvWrite ("PING" ++ LF)%string, Some Listener);
               (Listener, EvReadline, Some Listener)]
    /\ option_map overlap
         (interleave [Listener; Listener; Gateway; Gateway; Listener] g
            (snd (serial_listener_pass (line_at 0.120 "ACK PING") open_state)) None)
       = Some true.
Proof.
  do 3 eexists. split; [vm_compute; reflexivity|].
  repeat split.
Qed.

(** ** The properties at the sample inputs *)

Ltac concrete :=
  repeat match goal with
         | |- _ /\ _ => split
         | |- True => exact I
         | |- forall x, False -> _ => let H := fresh in intros ? H; destruct H
         | |- forall x, In x _ -> _ => let H := fresh in intros ? H; destruct H
         end;
  try (vm_compute; first [ reflexivity
                         | discriminate
                         | let H := fresh in intros H; discriminate H
                         | let H := fresh in intros H; apply H; reflexivity ]).

Lemma correlator_first_match_else_sentinel_witness :
  (exists r tr,
      first_qualifying 0 [mkLine 0.120 "ACK PING"] r
      /\ wait_for_new_response 0 DEFAULT_TIMEOUT (waiting ping_env) open_state
         = Some (data r,
                 set_serial_buffer [mkLine 0.120 "ACK PING"] open_state, tr))
  /\ (exists tr,
         wait_for_new_response 0 DEFAULT_TIMEOUT (waiting silent_env) open_state
         = Some (NO_RESPONSE, open_state, tr)).
Proof.
  split.
  - apply (proj1 correlator_first_match_else_sentinel 0 DEFAULT_TIMEOUT
             (waiting ping_env) open_state
             [mkPoll 0.002 []; mkPoll 0.110 []]
             (mkPoll 0.125 [line_at 0.120 ("ACK PING" ++ LF)%string]) []).
    + reflexivity.
    + simpl. concrete.
    + concrete.
    + exists (mkLine 0.120 "ACK PING"). split; [now left | concrete].
  - apply (proj2 correlator_first_match_else_sentinel 0 DEFAULT_TIMEOUT
             (waiting silent_env) open_state [mkPoll 0.002 []] (mkPoll 2.005 []) []).
    + reflexivity.
    + simpl. concrete.
    + concrete.
Defined.

Lemma correlator_respects_grace_witness :
  exists s' tr,
    wait_for_new_response 0 DEFAULT_TIMEOUT (waiting ping_env) open_state
    = Some ("ACK PING", s', tr)
    /\ ((exists r,
            In r (serial_buffer s') /\ data r = "ACK PING" /\ 0 - grace <= timestamp r)
        \/ ("ACK PING" = NO_RESPONSE
            /\ exists p, In p (polls (waiting ping_env))
                         /\ DEFAULT_TIMEOUT <= now p - start (waiting ping_env))).
Proof.
  do 2 eexists. split.
  - vm_compute. reflexivity.
  - eapply (correlator_respects_grace 0 DEFAULT_TIMEOUT (waiting ping_env) open_state).
    vm_compute. reflexivity.
Defined.

Lemma correlator_returns_line_within_grace_witness :
  exists tr,
    wait_for_new_response 0.150 DEFAULT_TIMEOUT (waiting ping_env) open_state
    = Some ("ACK PING", set_serial_buffer [mkLine 0.120 "ACK PING"] open_state, tr).
Proof.
  apply (correlator_returns_line_within_grace 0.120 0.150 DEFAULT_TIMEOUT
           (waiting ping_env) open_state
           [mkPoll 0.002 []; mkPoll 0.110 []]
           (mkPoll 0.125 [line_at 0.120 ("ACK PING" ++ LF)%string]) []
           [] (mkLine 0.120 "ACK PING") []).
  - reflexivity.
  - simpl. concrete.
  - concrete.
  - reflexivity.
  - reflexivity.
  - concrete.
  - concrete.
Defined.

Lemma send_command_disconnected_immediate_witness :
  send_command sample_loads silent_env (request_for "PING") closed_state
  = Some (not_available, closed_state, [])
  /\ send_command sample_loads silent_env (request_for "PING") initial_state
     = Some (not_available, initial_state, []).
Proof.
  split.
  - apply (send_command_disconnected_immediate string sample_loads silent_env
             (mkRequest (Some "PING") None None) "PING" closed_state);
      reflexivity.
  - apply (send_command_disconnected_immediate string sample_loads silent_env
             (mkRequest (Some "PING") None None) "PING" initial_state);
      reflexivity.
Defined.

Lemma send_command_classification_witness :
  exists s' tr,
    send_command sample_loads badcmd_env (request_for "BADCMD") open_state
    = Some (jsonify (StatusMessage "error" "ERR unknown"), s', tr).
Proof.
  destruct (send_command_classification string sample_loads badcmd_env
              (mkRequest (Some "BADCMD") None None) "BADCMD" open_state
              (mkSerial "COM3" true) "ERR unknown"
              (set_serial_buffer [mkLine 0.050 "ERR unknown"] open_state)
              [EvTime 0.001; EvTime 0.002; EvAcquire; EvSnapshot; EvRelease;
               EvSleep POLL; EvTime 0.055; EvAcquire; EvSnapshot; EvRelease])
    as (resp & s' & tr & Hsend & _ & _ & Herr & _).
  - reflexivity.
  - reflexivity.
  - reflexivity.
  - reflexivity.
  - vm_compute. reflexivity.
  - discriminate.
  - exists s', tr. unfold request_for. rewrite Hsend. f_equal. f_equal. f_equal.
    apply Herr.
    + reflexivity.
    + intros [rest H]. discriminate H.
    + exists " unknown". reflexivity.
Defined.

Lemma history_capped_oldest_evicted_witness :
  exists s' tr,
    send_all sample_loads (repeat (ping_env, request_for "PING") 52) open_state
    = Some (s', tr)
    /\ List.length (logged tr) = 52%nat
    /\ (List.length (history s') <= 50)%nat
    /\ history s' = keep_last 50 (history open_state ++ logged tr).
Proof.
  do 2 eexists. split; [vm_compute; reflexivity|].
  split; [reflexivity|].
  apply (history_capped_oldest_evicted string sample_loads
           (repeat (ping_env, request_for "PING") 52) open_state).
  - apply Nat.le_0_l.
  - vm_compute. reflexivity.
Defined.

Lemma device_line_no_response_reads_as_timeout_witness :
  exists s1 tr1 s2 tr2,
    send_command sample_loads echo_env (request_for "STATUS") open_state
    = Some (jsonify (StatusMessage "error" "No response from robot"), s1, tr1)
    /\ send_command sample_loads silent_env (request_for "STATUS") open_state
       = Some (jsonify (StatusMessage "error" "No response from robot"), s2, tr2).
Proof.
  apply (device_line_no_response_reads_as_timeout string sample_loads
           echo_env silent_env (mkRequest (Some "STATUS") None None) "STATUS"
           open_state (mkSerial "COM3" true)
           [mkPoll 0.002 []] [] [mkPoll 0.002 []] []
           (mkPoll 0.125 [line_at 0.120 "No response"]) (mkPoll 2.005 [])
           (mkLine 0.120 "No response")).
  - reflexivity.
  - reflexivity.
  - reflexivity.
  - reflexivity.
  - reflexivity.
  - simpl. concrete.
  - concrete.
  - exists [], []. simpl. concrete.
  - reflexivity.
  - reflexivity.
  - reflexivity.
  - simpl. concrete.
  - concrete.
Defined.

Lemma connect_failure_closes_old_connection_witness :
  exists s',
    @connect string (mkConnectEnv None (Some "could not open port 'COM9'"))
      (Some (mkRequest None (Some "COM9") None)) open_state
    = (jsonify (StatusMessage "error" "could not open port 'COM9'"), s',
       [EvClose; EvOpen "COM9"])
    /\ ser s' = Some (mkSerial "COM3" false)
    /\ ser s' <> None
    /\ has_open_connection s' = false.
Proof.
  apply (connect_failure_closes_old_connection string
           (mkConnectEnv None (Some "could not open port 'COM9'"))
           (mkRequest None (Some "COM9") None) "COM9" open_state
           (mkSerial "COM3" true) "could not open port 'COM9'");
    reflexivity.
Defined.

Lemma listener_read_error_is_swallowed_witness :
  serial_listener_pass failing_read open_state
  = (Continue, open_state,
     [EvAcquire; EvProbe; EvReadline; EvListenerError; EvRelease; EvSleep POLL])
  /\ fst (fst (serial_listener [failing_read; line_at 1 "ACK"] open_state))
     = fst (fst (serial_listener [line_at 1 "ACK"] open_state))
  /\ snd (fst (serial_listener [failing_read; line_at 1 "ACK"] open_state))
     = snd (fst (serial_listener [line_at 1 "ACK"] open_state))
  /\ (forall ks s0,
         listener_active (snd (fst (serial_listener ks s0))) = listener_active s0
         /\ ser (snd (fst (serial_listener ks s0))) = ser s0
         /\ existsb touches_connection (snd (serial_listener ks s0)) = false).
Proof.
  apply (listener_read_error_is_swallowed failing_read [line_at 1 "ACK"] open_state
           (mkSerial "COM3" true) 3); reflexivity.
Defined.

(** * Further properties of the module *)

(** ** Line buffer *)

Lemma deque_append_window (maxlen : nat) (x : LineRecord) (d : list LineRecord) :
  (List.length d <= maxlen)%nat ->
  deque_append maxlen x d = keep_last maxlen (d ++ [x]).
Proof.
  intros Hd. unfold deque_append, keep_last. rewrite length_app. simpl List.length.
  destruct (Nat.eqb_spec maxlen 0) as [-> | Hpos].
  - destruct d as [|y d]; [reflexivity | simpl in Hd; lia].
  - destruct (Nat.leb_spec maxlen (List.length d)) as [Hfull | Hroom].
    + replace (List.length d + 1 - maxlen)%nat with 1%nat by lia.
      destruct d as [|y d]; [simpl in Hfull; lia | reflexivity].
    + replace (List.length d + 1 - maxlen)%nat with 0%nat by lia. reflexivity.
Qed.

Lemma appended_app (tr1 tr2 : Trace) :
  appended (tr1 ++ tr2) = appended tr1 ++ appended tr2.
Proof.
  induction tr1 as [|e tr1 IH]; simpl; [reflexivity|].
  destruct e; simpl; now rewrite ?IH.
Qed.

Lemma serial_listener_pass_window (k : Tick) (s : State) :
  (List.length (serial_buffer s) <= BUFFER_MAXLEN)%nat ->
  serial_buffer (snd (fst (serial_listener_pass k s)))
  = keep_last BUFFER_MAXLEN (serial_buffer s ++ appended (snd (serial_listener_pass k s))).
Proof.
  intros Hcap.
  assert (Hsame : serial_buffer s = keep_last BUFFER_MAXLEN (serial_buffer s ++ []))
    by (rewrite app_nil_r; now rewrite keep_last_short).
  unfold serial_listener_pass.
  destruct (ser s); [|exact Hsame].
  destruct (probe k) as [[|n]|]; try exact Hsame.
  destruct (readline k) as [raw|]; [|exact Hsame].
  destruct (truthy (strip raw)); [|exact Hsame].
  simpl. now apply deque_append_window.
Qed.

Lemma serial_listener_window (ks : list Tick) :
  forall s,
    (List.length (serial_buffer s) <= BUFFER_MAXLEN)%nat ->
    serial_buffer (snd (fst (serial_listener ks s)))
    = keep_last BUFFER_MAXLEN (serial_buffer s ++ appended (snd (serial_listener ks s))).
Proof.
  induction ks as [|k ks IH]; intros s Hcap; simpl.
  - rewrite app_nil_r. now rewrite keep_last_short.
  - pose proof (serial_listener_pass_window k s Hcap) as Hpass.
    destruct (serial_listener_pass k s) as [[o s1] tr1]. simpl in Hpass.
    destruct o; simpl; try exact Hpass.
    assert (Hcap1 : (List.length (serial_buffer s1) <= BUFFER_MAXLEN)%nat)
      by (rewrite Hpass; apply keep_last_length).
    specialize (IH s1 Hcap1).
    destruct (serial_listener ks s1) as [[o2 s2] tr2]. simpl in *.
    rewrite IH, Hpass, appended_app, keep_last_app, app_assoc. reflexivity.
Qed.

(** X1.  Whatever the listener meets, a buffer that starts within its
    capacity of 100 stays within it, and after the run it holds exactly the
    last 100, in order, of its old records followed by the records the run
    appended. *)
Theorem line_buffer_keeps_most_recent :
  forall (ks : list Tick) (s : State),
    (List.length (serial_buffer s) <= 100)%nat ->
    (List.length (serial_buffer (snd (fst (serial_listener ks s)))) <= 100)%nat
    /\ serial_buffer (snd (fst (serial_listener ks s)))
       = keep_last 100 (serial_buffer s ++ appended (snd (serial_listener ks s))).
Proof.
  intros ks s Hcap.
  pose proof (serial_listener_window ks s Hcap) as H.
  split; [|exact H]. rewrite H. apply keep_last_length.
Qed.

(** ** What the listener buffers *)

Lemma lstrip_first (s : string) (c : ascii) :
  first_char (lstrip s) = Some c -> isspace c = false.
Proof.
  induction s as [|a s IH]; simpl; [discriminate|].
  destruct (isspace a) eqn:Ha; [exact IH|].
  simpl. intros [= <-]. exact Ha.
Qed.

Lemma rstrip_last (s : string) (c : ascii) :
  last_char (rstrip s) = Some c -> isspace c = false.
Proof.
  induction s as [|a s IH]; simpl; [discriminate|].
  destruct (rstrip s) as [|b kept] eqn:Hkept.
  - destruct (isspace a) eqn:Ha; simpl; [discriminate|].
    intros [= <-]. exact Ha.
  - exact IH.
Qed.

Lemma rstrip_first (s : string) :
  truthy (rstrip s) = true -> first_char (rstrip s) = first_char s.
Proof.
  destruct s as [|a s]; simpl; [discriminate|].
  destruct (rstrip s) as [|b kept]; [|reflexivity].
  destruct (isspace a); [discriminate | reflexivity].
Qed.

Lemma last_char_truthy (s : string) :
  truthy s = true -> exists c, last_char s = Some c.
Proof.
  induction s as [|a s IH]; simpl; [discriminate|]. intros _.
  destruct s as [|b s]; [now exists a|]. now apply IH.
Qed.

Lemma strip_trimmed (raw : string) :
  truthy (strip raw) = true -> trimmed (strip raw).
Proof.
  intros Htruthy. unfold strip in *. split.
  - rewrite (rstrip_first _ Htruthy).
    destruct (lstrip raw) as [|c rest] eqn:Hl; [discriminate|].
    exists c. split; [reflexivity|]. apply (lstrip_first raw). now rewrite Hl.
  - destruct (last_char_truthy _ Htruthy) as (c & Hc).
    exists c. split; [exact Hc | exact (rstrip_last _ _ Hc)].
Qed.

Lemma serial_listener_pass_appends_trimmed (k : Tick) (s : State) (r : LineRecord) :
  In r (appended (snd (serial_listener_pass k s))) ->
  trimmed (data r) /\ timestamp r = observed k.
Proof.
  unfold serial_listener_pass.
  destruct (ser s); [|intros []].
  destruct (probe k) as [[|n]|]; try (intros []).
  destruct (readline k) as [raw|]; [|intros []].
  destruct (truthy (strip raw)) eqn:Htruthy; [|intros []].
  simpl. intros [<- | []]. simpl. split; [now apply strip_trimmed | reflexivity].
Qed.

(** X2.  Every record the listener appends carries a non-empty text without
    white space at either end, stamped with the clock reading of one of its
    passes: blank device lines are never buffered. *)
Theorem listener_buffers_trimmed_lines :
  forall (ks : list Tick) (s : State) (r : LineRecord),
    In r (appended (snd (serial_listener ks s))) ->
    trimmed (data r) /\ exists k, In k ks /\ timestamp r = observed k.
Proof.
  induction ks as [|k ks IH]; intros s r; simpl; [intros []|].
  pose proof (serial_listener_pass_appends_trimmed k s r) as Hpass.
  destruct (serial_listener_pass k s) as [[o s1] tr1]. simpl in Hpass.
  assert (Hhere : In r (appended tr1) ->
                  trimmed (data r) /\ exists k0, (k = k0 \/ In k0 ks) /\ timestamp r = observed k0).
  { intros Hin. destruct (Hpass Hin) as (Ht & Hstamp).
    split; [exact Ht|]. exists k. split; [now left | exact Hstamp]. }
  destruct o; simpl; try exact Hhere.
  specialize (IH s1 r). destruct (serial_listener ks s1) as [[o2 s2] tr2]. simpl in *.
  rewrite appended_app. intros Hin. apply in_app_or in Hin.
  destruct Hin as [Hin | Hin]; [now apply Hhere|].
  destruct (IH Hin) as (Ht & k0 & Hk0 & Hstamp).
  split; [exact Ht|]. exists k0. split; [now right | exact Hstamp].
Qed.

(** ** Lock scopes *)

Lemma well_locked_app (tr1 tr2 : Trace) :
  forall held,
    well_locked held tr1 = true ->
    well_locked held (tr1 ++ tr2) = well_locked false tr2.
Proof.
  induction tr1 as [|e tr1 IH]; intros held H; simpl in *.
  - destruct held; [discriminate | reflexivity].
  - destruct e; destruct held; simpl in *; try discriminate; now apply IH.
Qed.

Lemma serial_listener_pass_well_locked (k : Tick) (s : State) :
  well_locked false (snd (serial_listener_pass k s)) = true.
Proof.
  unfold serial_listener_pass.
  destruct (ser s); [|reflexivity].
  destruct (probe k) as [[|n]|]; try reflexivity.
  destruct (readline k) as [raw|]; [|reflexivity].
  destruct (truthy (strip raw)); reflexivity.
Qed.

(** X3.  In every run of the listener, also one that an exception of the
    probe ends, each lock scope is closed again, the probe, the read and the
    append happen inside a scope, and every sleep happens outside: the
    listener never sleeps, and never dies, holding [serial_lock]. *)
Theorem listener_lock_discipline :
  forall (ks : list Tick) (s : State),
    well_locked false (snd (serial_listener ks s)) = true.
Proof.
  induction ks as [|k ks IH]; intros s; simpl; [reflexivity|].
  pose proof (serial_listener_pass_well_locked k s) as Hpass.
  destruct (serial_listener_pass k s) as [[o s1] tr1]. simpl in Hpass.
  destruct o; simpl; try exact Hpass.
  specialize (IH s1). destruct (serial_listener ks s1) as [[o2 s2] tr2]. simpl in *.
  now rewrite (well_locked_app tr1 tr2 false Hpass).
Qed.

Lemma wait_loop_well_locked (since_time timeout start0 : Q) (ps : list Poll) :
  forall s d s' tr,
    wait_loop since_time timeout start0 ps s = Some (d, s', tr) ->
    well_locked false tr = true.
Proof.
  induction ps as [|p rest IH]; intros s d s' tr; simpl; [discriminate|].
  destruct (Qltb (now p - start0) timeout).
  - destruct (scan since_time _) as [d0|].
    + intros [= <- <- <-]. reflexivity.
    + destruct (wait_loop _ _ _ rest _) as [[[d1 s1] tr1]|] eqn:Hrest; [|discriminate].
      intros [= <- <- <-]. simpl. exact (IH _ _ _ _ Hrest).
  - intros [= <- <- <-]. reflexivity.
Qed.

(** X4.  Every completed call of [/send] leaves [serial_lock] free: each scope
    it opens is closed again (also on the return from inside the scan), the
    buffer is only read inside a scope, and the wait between two polls is
    slept outside. *)
Theorem send_command_lock_discipline :
  forall (Json : Type) (json_loads : string -> option Json)
         (env : SendEnv) (req : option Request) (s : State)
         (resp : HttpResponse Json) (s' : State) (tr : Trace),
    send_command json_loads env req s = Some (resp, s', tr) ->
    well_locked false tr = true.
Proof.
  intros Json json_loads env req s resp s' tr. unfold send_command.
  destruct (negb (require_password req)); [now intros [= <- <- <-]|].
  destruct req as [r|]; [|now intros [= <- <- <-]].
  destruct (command r) as [c|]; [|now intros [= <- <- <-]].
  destruct (ser s) as [h|]; [|now intros [= <- <- <-]].
  destruct (negb (is_open h)); [now intros [= <- <- <-]|].
  destruct (write_ok env); [|now intros [= <- <- <-]].
  unfold wait_for_new_response.
  destruct (wait_loop _ _ _ _ _) as [[[d1 s1] tr1]|] eqn:Hloop; [|discriminate].
  intros [= <- <- <-]. simpl.
  rewrite (well_locked_app tr1 _ false (wait_loop_well_locked _ _ _ _ _ _ _ _ Hloop)).
  reflexivity.
Qed.

(** ** The wait is bounded *)

Lemma count_events_app (f : Event -> bool) (tr1 tr2 : Trace) :
  count_events f (tr1 ++ tr2) = (count_events f tr1 + count_events f tr2)%nat.
Proof. unfold count_events. now rewrite filter_app, length_app. Qed.

Lemma wait_loop_scans (since_time timeout start0 : Q) (ps : list Poll) :
  forall prev s d s' tr,
    paced prev ps ->
    wait_loop since_time timeout start0 ps s = Some (d, s', tr) ->
    count_events is_snapshot tr = 0%nat
    \/ prev - start0 + (inject_Z (Z.of_nat (count_events is_snapshot tr)) - 1) * POLL
       < timeout.
Proof.
  induction ps as [|p rest IH]; intros prev s d s' tr Hpaced; simpl; [discriminate|].
  destruct Hpaced as (Hprev & Hpaced).
  destruct (Qltb (now p - start0) timeout) eqn:Hin.
  - apply Qltb_lt in Hin.
    destruct (scan since_time _) as [d0|].
    + intros [= <- <- <-]. right. unfold POLL.
      change (count_events is_snapshot _) with 1%nat.
      change (inject_Z (Z.of_nat 1)) with 1. lra.
    + destruct (wait_loop _ _ _ rest _) as [[[d1 s1] tr1]|] eqn:Hrest; [|discriminate].
      intros [= <- <- <-]. right.
      change (count_events is_snapshot _) with (S (count_events is_snapshot tr1)).
      rewrite Nat2Z.inj_succ. unfold Z.succ. rewrite inject_Z_plus.
      change (inject_Z 1) with 1.
      destruct (IH _ _ _ _ _ Hpaced Hrest) as [Hzero | Hmore].
      * rewrite Hzero. change (inject_Z (Z.of_nat 0)) with 0. unfold POLL. lra.
      * unfold POLL in *. lra.
  - intros [= <- <- <-]. now left.
Qed.

(** X5.  When the polls keep pace with the clock (each comes at least one
    sleep of 0.01 s after the previous one), a call of [/send] scans the
    buffer at most 200 times before it answers. *)
Theorem send_command_scans_bounded :
  forall (Json : Type) (json_loads : string -> option Json)
         (env : SendEnv) (req : option Request) (s : State)
         (resp : HttpResponse Json) (s' : State) (tr : Trace),
    paced (start (waiting env)) (polls (waiting env)) ->
    send_command json_loads env req s = Some (resp, s', tr) ->
    (count_events is_snapshot tr <= 200)%nat.
Proof.
  intros Json json_loads env req s resp s' tr Hpaced. unfold send_command.
  destruct (negb (require_password req)); [intros [= <- <- <-]; apply Nat.le_0_l|].
  destruct req as [r|]; [|intros [= <- <- <-]; apply Nat.le_0_l].
  destruct (command r) as [c|]; [|intros [= <- <- <-]; apply Nat.le_0_l].
  destruct (ser s) as [h|]; [|intros [= <- <- <-]; apply Nat.le_0_l].
  destruct (negb (is_open h)); [intros [= <- <- <-]; apply Nat.le_0_l|].
  destruct (write_ok env); [|intros [= <- <- <-]; apply Nat.le_0_l].
  unfold wait_for_new_response.
  destruct (wait_loop _ _ _ _ _) as [[[d1 s1] tr1]|] eqn:Hloop; [|discriminate].
  intros [= <- <- <-].
  change (count_events is_snapshot _)
    with (count_events is_snapshot (tr1 ++ [EvLog (mkExchange (strip c) d1 (logged_at env))])).
  rewrite count_events_app. change (count_events is_snapshot [EvLog _]) with 0%nat.
  rewrite Nat.add_0_r.
  destruct (wait_loop_scans _ _ _ _ _ _ _ _ _ Hpaced Hloop) as [-> | Hmore];
    [apply Nat.le_0_l|].
  set (n := count_events is_snapshot tr1) in *.
  unfold POLL, DEFAULT_TIMEOUT in Hmore.
  assert (Hq : inject_Z (Z.of_nat n) < inject_Z 201) by (change (inject_Z 201) with 201; lra).
  rewrite <- Zlt_Qlt in Hq. lia.
Qed.

(** ** Lines are not consumed *)

(** X6.  The correlator leaves what it returns in the buffer: when a wait that
    never reached its timeout returned a text, a later wait on the resulting
    state with the same [since], whose first poll comes within its timeout
    and before any new arrival, returns that text again. *)
Theorem correlator_does_not_consume :
  forall since_time timeout env s d s' tr,
    wait_for_new_response since_time timeout env s = Some (d, s', tr) ->
    (forall p, In p (polls env) -> now p - start env < timeout) ->
    forall timeout2 env2 p2 rest2,
      polls env2 = p2 :: rest2 ->
      arrivals p2 = [] ->
      now p2 - start env2 < timeout2 ->
      exists tr2,
        wait_for_new_response since_time timeout2 env2 s' = Some (d, s', tr2).
Proof.
  intros since_time timeout env s d s' tr Hwait Hnever timeout2 env2 p2 rest2
    Hpolls Hquiet Hin.
  unfold wait_for_new_response in Hwait.
  destruct (wait_loop _ _ _ _ _) as [[[d1 s1] tr1]|] eqn:Hloop; [|discriminate].
  injection Hwait as <- <- <-.
  destruct (wait_loop_result _ _ _ _ _ _ _ _ Hloop)
    as [(r & Hr & <-) | (_ & p & Hp & Hout)].
  - assert (Hsame : listener_progress (arrivals p2) (after_polls [] s1) = s1)
      by (rewrite Hquiet; reflexivity).
    destruct (wait_for_new_response_match since_time timeout2 env2 [] rest2 p2 s1 r
                Hpolls I Hin) as (tr2 & Hwait2).
    + rewrite Hsame. exact Hr.
    + rewrite Hsame in Hwait2. now exists tr2.
  - exfalso. specialize (Hnever p Hp). lra.
Qed.

(** ** Buffer order and observation order *)

Lemma chronological_snoc (d : list LineRecord) (x : LineRecord) :
  chronological d ->
  (forall y, In y d -> timestamp y <= timestamp x) ->
  chronological (d ++ [x]).
Proof.
  unfold chronological. induction d as [|a d IH]; intros Hsorted Hbound; simpl.
  - constructor; constructor.
  - inversion Hsorted as [|a' d' Hd Ha]; subst. constructor.
    + apply IH; [exact Hd|]. intros y Hy. apply Hbound. now right.
    + apply Forall_app. split; [exact Ha|].
      constructor; [|constructor]. apply Hbound. now left.
Qed.

Lemma chronological_tl (d : list LineRecord) : chronological d -> chronological (tl d).
Proof.
  unfold chronological. destruct d as [|a d]; simpl; [trivial|].
  intros H. now inversion H.
Qed.

Lemma deque_append_chronological (maxlen : nat) (x : LineRecord) (d : list LineRecord) :
  chronological d ->
  (forall y, In y d -> timestamp y <= timestamp x) ->
  chronological (deque_append maxlen x d)
  /\ forall y, In y (deque_append maxlen x d) -> timestamp y <= timestamp x.
Proof.
  intros Hsorted Hbound. unfold deque_append.
  assert (Htl : forall y, In y (tl d) -> In y d)
    by (destruct d; simpl; [trivial | intros y Hy; now right]).
  destruct (maxlen =? 0)%nat; [now split|].
  destruct (maxlen <=? List.length d)%nat; split.
  - apply chronological_snoc; [now apply chronological_tl|]. intros y Hy. auto.
  - intros y Hy. apply in_app_or in Hy. destruct Hy as [Hy | [<- | []]]; [auto | lra].
  - now apply chronological_snoc.
  - intros y Hy. apply in_app_or in Hy. destruct Hy as [Hy | [<- | []]]; [auto | lra].
Qed.

Lemma serial_listener_pass_chronological (k : Tick) (s : State) (t : Q) :
  chronological (serial_buffer s) ->
  (forall y, In y (serial_buffer s) -> timestamp y <= t) ->
  t <= observed k ->
  chronological (serial_buffer (snd (fst (serial_listener_pass k s))))
  /\ forall y, In y (serial_buffer (snd (fst (serial_listener_pass k s)))) ->
               timestamp y <= observed k.
Proof.
  intros Hsorted Hbound Ht.
  assert (Hbound' : forall y, In y (serial_buffer s) -> timestamp y <= observed k)
    by (intros y Hy; specialize (Hbound y Hy); lra).
  unfold serial_listener_pass.
  destruct (ser s); [|now split].
  destruct (probe k) as [[|n]|]; try (now split).
  destruct (readline k) as [raw|]; [|now split].
  destruct (truthy (strip raw)); [|now split].
  simpl. now apply deque_append_chronological.
Qed.

(** X7.  While the clock readings of the listener never go back, the buffer
    stays in the order of its timestamps: a buffer that is in observation
    order, with no record later than the first reading, is in observation
    order after any run of the listener. *)
Theorem listener_keeps_observation_order :
  forall (ks : list Tick) (s : State) (t : Q),
    chronological (serial_buffer s) ->
    (forall y, In y (serial_buffer s) -> timestamp y <= t) ->
    steady_clock t ks ->
    chronological (serial_buffer (snd (fst (serial_listener ks s)))).
Proof.
  induction ks as [|k ks IH]; intros s t Hsorted Hbound Hclock; simpl; [exact Hsorted|].
  destruct Hclock as (Ht & Hclock).
  destruct (serial_listener_pass_chronological k s t Hsorted Hbound Ht) as (Hs1 & Hb1).
  destruct (serial_listener_pass k s) as [[o s1] tr1]. simpl in Hs1, Hb1.
  destruct o; simpl; try exact Hs1.
  specialize (IH s1 (observed k) Hs1 Hb1 Hclock).
  destruct (serial_listener ks s1) as [[o2 s2] tr2]. exact IH.
Qed.

Lemma first_qualifying_earliest (since_time : Q) (items : list LineRecord)
  (r : LineRecord) :
  chronological items ->
  first_qualifying since_time items r ->
  forall x, In x items -> since_time - grace <= timestamp x ->
            timestamp r <= timestamp x.
Proof.
  unfold chronological. intros Hsorted (l1 & l2 & -> & Hr & Hbefore) x Hx Hqx.
  apply in_app_or in Hx. destruct Hx as [Hx | [<- | Hx]].
  - exfalso. exact (Hbefore x Hx Hqx).
  - lra.
  - induction l1 as [|a l1 IH].
    + simpl in Hsorted. inversion Hsorted as [|a' d' _ Hall]; subst.
      rewrite Forall_forall in Hall. now apply Hall.
    + simpl in Hsorted. inversion Hsorted as [|a' d' Hd _]; subst.
      apply IH; [exact Hd|]. intros y Hy. apply Hbefore. now right.
Qed.

(** X8.  On a buffer in observation order the correlator returns the earliest
    observed of the qualifying records: the text it returns, unless it is the
    sentinel of a timeout, belongs to a buffered record observed at or after
    [since - grace] and no later than every buffered record that qualifies. *)
Theorem correlator_returns_earliest_when_ordered :
  forall since_time timeout env s d s' tr,
    wait_for_new_response since_time timeout env s = Some (d, s', tr) ->
    chronological (serial_buffer s') ->
    (exists r,
        In r (serial_buffer s') /\ data r = d
        /\ since_time - grace <= timestamp r
        /\ forall x, In x (serial_buffer s') -> since_time - grace <= timestamp x ->
                     timestamp r <= timestamp x)
    \/ (d = NO_RESPONSE
        /\ exists p, In p (polls env) /\ timeout <= now p - start env).
Proof.
  intros since_time timeout env s d s' tr Hwait Hsorted.
  unfold wait_for_new_response in Hwait.
  destruct (wait_loop _ _ _ _ _) as [[[d1 s1] tr1]|] eqn:Hloop; [|discriminate].
  injection Hwait as <- <- <-.
  destruct (wait_loop_result _ _ _ _ _ _ _ _ Hloop) as [(r & Hr & Hd) | Hsentinel];
    [left | now right].
  exists r. pose proof (first_qualifying_earliest _ _ _ Hsorted Hr) as Hearliest.
  destruct Hr as (l1 & l2 & Hbuf & Hq & _).
  repeat split; try assumption.
  rewrite Hbuf. apply in_or_app. right. now left.
Qed.

(** ** What [/send] changes *)

Section SendCases.

Context {Json : Type} (json_loads : string -> option Json).

(** The two ways a call of [/send] ends: with an error answer before or at
    the write, or with the classification of what the wait returned. *)
Lemma send_command_cases (env : SendEnv) (req : option Request) (s : State)
  (resp : HttpResponse Json) (s' : State) (tr : Trace) :
  send_command json_loads env req s = Some (resp, s', tr) ->
  (code resp <> 200%nat /\ s' = s /\ logged tr = [] /\ count_events is_snapshot tr = 0%nat)
  \/ (exists r c h response s1 tr1,
         req = Some r /\ command r = Some c /\ ser s = Some h /\ is_open h = true
         /\ write_ok env = true
         /\ wait_for_new_response (since env) DEFAULT_TIMEOUT (waiting env) s
            = Some (response, s1, tr1)
         /\ resp = classify json_loads response
         /\ s' = log_command (strip c) response (logged_at env) s1
         /\ tr = [EvTime (since env); EvWrite (strip c ++ LF)%string] ++ tr1
                 ++ [EvLog (mkExchange (strip c) response (logged_at env))]).
Proof.
  unfold send_command.
  destruct (negb (require_password req));
    [intros [= <- <- <-]; left; repeat split; discriminate|].
  destruct req as [r|]; [|intros [= <- <- <-]; left; repeat split; discriminate].
  destruct (command r) as [c|] eqn:Hc;
    [|intros [= <- <- <-]; left; repeat split; discriminate].
  destruct (ser s) as [h|] eqn:Hser;
    [|intros [= <- <- <-]; left; repeat split; discriminate].
  destruct (is_open h) eqn:Hopen; simpl;
    [|intros [= <- <- <-]; left; repeat split; discriminate].
  destruct (write_ok env) eqn:Hwrite;
    [|intros [= <- <- <-]; left; repeat split; discriminate].
  destruct (wait_for_new_response _ _ _ _) as [[[response s1] tr1]|] eqn:Hwait;
    [|discriminate].
  intros [= <- <- <-]. right.
  exists r, c, h, response, s1, tr1. repeat split; assumption.
Qed.

End SendCases.

Lemma log_command_newest_last (cmd response stamp : string) (s : State) :
  exists older,
    history (log_command cmd response stamp s)
    = older ++ [mkExchange cmd response stamp].
Proof.
  unfold log_command.
  destruct (Nat.ltb_spec HISTORY_CAP
              (List.length (history s ++ [mkExchange cmd response stamp])))
    as [Hfull | Hroom].
  - destruct (history s) as [|e h] eqn:Hh.
    + simpl in Hfull. unfold HISTORY_CAP in Hfull. lia.
    + exists h. reflexivity.
  - exists (history s). reflexivity.
Qed.

(** X9.  A call of [/send] that does not answer with status 200 (no command,
    port not available, failed write) changes nothing: the state is the one
    before the call, nothing is logged and the buffer is never scanned.  A
    call that answers with status 200 logs exactly one exchange: the stripped
    command, the text the wait returned and the timestamp of the call. *)
Theorem send_command_logs_answered_exchanges_only :
  forall (Json : Type) (json_loads : string -> option Json)
         (env : SendEnv) (req : option Request) (s : State)
         (resp : HttpResponse Json) (s' : State) (tr : Trace),
    send_command json_loads env req s = Some (resp, s', tr) ->
    (code resp <> 200%nat ->
     s' = s /\ logged tr = [] /\ count_events is_snapshot tr = 0%nat)
    /\ (code resp = 200%nat ->
        exists r c response,
          req = Some r /\ command r = Some c
          /\ resp = classify json_loads response
          /\ logged tr = [mkExchange (strip c) response (logged_at env)]).
Proof.
  intros Json json_loads env req s resp s' tr Hsend.
  destruct (send_command_cases json_loads env req s resp s' tr Hsend)
    as [(Hcode & Hs & Hlog & Hscan)
       | (r & c & h & response & s1 & tr1 & Hreq & Hc & _ & _ & _ & Hwait & Hresp & _ & Htr)].
  - split; [intros _; now repeat split | intros H; contradiction].
  - split.
    + intros Hcode. exfalso. apply Hcode. rewrite Hresp. apply classify_code.
    + intros _. exists r, c, response. repeat split; try assumption.
      destruct (wait_for_new_response_frame _ _ _ _ _ _ _ Hwait) as (_ & _ & _ & Hlog).
      rewrite Htr. cbn [app logged]. rewrite logged_app, Hlog. reflexivity.
Qed.

(** X10.  After a call of [/send] answered with status 200, the last entry
    [/log] returns is the exchange of that call, whatever the history held
    before, also when the call evicted an entry. *)
Theorem get_log_ends_with_last_exchange :
  forall (Json : Type) (json_loads : string -> option Json)
         (env : SendEnv) (req req' : option Request) (s : State)
         (resp : HttpResponse Json) (s' : State) (tr : Trace),
    send_command json_loads env req s = Some (resp, s', tr) ->
    code resp = 200%nat ->
    exists older e,
      get_log req' s' = LogEntries (older ++ [e])
      /\ logged tr = [e]
      /\ ex_timestamp e = logged_at env.
Proof.
  intros Json json_loads env req req' s resp s' tr Hsend Hcode.
  destruct (send_command_cases json_loads env req s resp s' tr Hsend)
    as [(Hne & _) | (r & c & h & response & s1 & tr1 & _ & _ & _ & _ & _ & Hwait & _ & Hs & Htr)];
    [contradiction|].
  destruct (log_command_newest_last (strip c) response (logged_at env) s1) as (older & Hh).
  exists older, (mkExchange (strip c) response (logged_at env)).
  repeat split.
  - unfold get_log. simpl. rewrite Hs, Hh. reflexivity.
  - destruct (wait_for_new_response_frame _ _ _ _ _ _ _ Hwait) as (_ & _ & _ & Hlog).
    rewrite Htr. cbn [app logged]. rewrite logged_app, Hlog. reflexivity.
Qed.

(** ** Password *)

(** X11.  With [DEVELOPMENT_MODE = True] no route looks at the password: for
    every request, also one without a body or with a wrong password, [/log]
    returns the history, [/log/clear] empties it, and neither [/connect] nor
    [/send] answers 403. *)
Theorem no_route_checks_the_password :
  forall (Json : Type) (json_loads : string -> option Json)
         (env : SendEnv) (cenv : ConnectEnv) (req : option Request) (s : State),
    get_log req s = LogEntries (history s)
    /\ history (snd (@clear_log_route Json req s)) = []
    /\ code (fst (fst (@connect Json cenv req s))) <> 403%nat
    /\ (forall resp s' tr,
           send_command json_loads env req s = Some (resp, s', tr) ->
           code resp <> 403%nat).
Proof.
  intros Json json_loads env cenv req s. repeat split.
  - unfold connect. simpl.
    destruct req as [r|]; [|discriminate].
    destruct (port r) as [p|]; [|discriminate].
    destruct (truthy p); simpl; [|discriminate].
    destruct (ser s) as [h|].
    + destruct (is_open h).
      * destruct (close_raises cenv); [discriminate|].
        destruct (open_raises cenv); discriminate.
      * destruct (open_raises cenv); discriminate.
    + destruct (open_raises cenv); discriminate.
  - intros resp s' tr Hsend.
    destruct (send_command_cases json_loads env req s resp s' tr Hsend)
      as [_ | (r & c & h & response & s1 & tr1 & _ & _ & _ & _ & _ & _ & -> & _)].
    + revert Hsend. unfold send_command. simpl.
      destruct req as [r|]; [|intros [= <- _ _]; discriminate].
      destruct (command r); [|intros [= <- _ _]; discriminate].
      destruct (ser s) as [h|]; [|intros [= <- _ _]; discriminate].
      destruct (negb (is_open h)); [intros [= <- _ _]; discriminate|].
      destruct (write_ok env); [|intros [= <- _ _]; discriminate].
      destruct (wait_for_new_response _ _ _ _) as [[[response s1] tr1]|]; [|discriminate].
      intros [= <- _ _]. rewrite classify_code. discriminate.
    + rewrite classify_code. discriminate.
Qed.

(** ** [/connect] and [/status] *)

Ltac connect_done :=
  repeat split; try assumption;
  try (now match goal with H : ?x <> ?x |- _ => elim H end);
  try (intros; discriminate).

Lemma connect_effect :
  forall (Json : Type) (env : ConnectEnv) (req : option Request) (s : State)
         (resp : HttpResponse Json) (s' : State) (tr : Trace),
    @connect Json env req s = (resp, s', tr) ->
    history s' = history s
    /\ serial_buffer s' = serial_buffer s
    /\ listener_active s' = listener_active s
    /\ (code resp <> 200%nat -> s' = s /\ tr = [])
    /\ (forall msg, body resp = StatusMessage "success" msg ->
        exists r p,
          req = Some r /\ port r = Some p /\ truthy p = true
          /\ ser s' = Some (mkSerial p true)
          /\ has_open_connection s' = true
          /\ msg = ("Connected to " ++ p)%string).
Proof.
  intros Json env req s resp s' tr. unfold connect. simpl.
  destruct req as [r|]; [|intros [= <- <- <-]; connect_done].
  destruct (port r) as [p|] eqn:Hport; [|intros [= <- <- <-]; connect_done].
  destruct (truthy p) eqn:Hp; simpl; [|intros [= <- <- <-]; connect_done].
  assert (Hopen : forall s1 tr1,
             history s1 = history s -> serial_buffer s1 = serial_buffer s ->
             listener_active s1 = listener_active s ->
             match open_raises env with
             | Some msg => (jsonify (StatusMessage "error" msg), s1, tr1 ++ [EvOpen p])
             | None =>
                 (jsonify (StatusMessage "success" ("Connected to " ++ p)%string),
                  set_ser (Some (mkSerial p true)) s1, tr1 ++ [EvOpen p])
             end = (resp, s', tr) ->
             history s' = history s
             /\ serial_buffer s' = serial_buffer s
             /\ listener_active s' = listener_active s
             /\ (code resp <> 200%nat -> s' = s /\ tr = [])
             /\ (forall msg, body resp = StatusMessage "success" msg ->
                 exists r0 p0,
                   Some r = Some r0 /\ port r0 = Some p0 /\ truthy p0 = true
                   /\ ser s' = Some (mkSerial p0 true)
                   /\ has_open_connection s' = true
                   /\ msg = ("Connected to " ++ p0)%string)).
  { intros s1 tr1 H1 H2 H3.
    destruct (open_raises env) as [msg|]; intros [= <- <- <-]; simpl.
    - connect_done.
    - connect_done.
      intros msg0 [= <-]. exists r, p. now repeat split. }
  destruct (ser s) as [h|]; [|intros H; now apply (Hopen s [])].
  destruct (is_open h); [|intros H; now apply (Hopen s [])].
  destruct (close_raises env) as [msg|];
    [|intros H;
      now apply (Hopen (set_ser (Some (mkSerial (port_name h) false)) s) [EvClose])].
  intros [= <- <- <-]. simpl. connect_done.
Qed.

(** X12.  [/connect] never touches the history, the line buffer or the
    liveness flag (lines buffered from the previous port stay, no listener is
    started); an answer other than 200 leaves the whole state and the
    connection alone; an answer with status "success" leaves [ser] on an open
    handle for the requested port. *)
Theorem connect_replaces_only_the_handle :
  forall (Json : Type) (env : ConnectEnv) (req : option Request) (s : State)
         (resp : HttpResponse Json) (s' : State) (tr : Trace),
    @connect Json env req s = (resp, s', tr) ->
    history s' = history s
    /\ serial_buffer s' = serial_buffer s
    /\ listener_active s' = listener_active s
    /\ (code resp <> 200%nat -> s' = s /\ tr = [])
    /\ (forall msg, body resp = StatusMessage "success" msg ->
        exists r p,
          req = Some r /\ port r = Some p /\ truthy p = true
          /\ ser s' = Some (mkSerial p true)
          /\ has_open_connection s' = true
          /\ msg = ("Connected to " ++ p)%string).
Proof.
  intros Json env req s resp s' tr. exact (connect_effect Json env req s resp s' tr).
Qed.

(** X13.  [/status] agrees with [/send] in one direction: when it reports
    [connected], a [/send] with a command on the same state is not refused
    with "Serial port not available" and performs the write of the stripped
    command followed by a line feed. *)
Theorem status_connected_means_send_writes :
  forall (Json : Type) (json_loads : string -> option Json)
         (probe_answers : bool) (env : SendEnv) (r : Request) (c : string)
         (s : State) (resp : HttpResponse Json) (s' : State) (tr : Trace),
    fst (get_status probe_answers s) = true ->
    command r = Some c ->
    send_command json_loads env (Some r) s = Some (resp, s', tr) ->
    resp <> not_available
    /\ exists rest, tr = EvTime (since env) :: EvWrite (strip c ++ LF)%string :: rest.
Proof.
  intros Json json_loads probe_answers env r c s resp s' tr Hstatus Hc.
  unfold get_status in Hstatus. unfold send_command. simpl. rewrite Hc.
  destruct (ser s) as [h|]; [|discriminate].
  destruct probe_answers; [|discriminate]. simpl in Hstatus. rewrite Hstatus. simpl.
  destruct (write_ok env).
  - destruct (wait_for_new_response _ _ _ _) as [[[response s1] tr1]|]; [|discriminate].
    intros [= <- <- <-]. split; [|eexists; reflexivity].
    intros H. apply (f_equal code) in H. rewrite classify_code in H. discriminate.
  - intros [= <- <- <-]. split; [discriminate | eexists; reflexivity].
Qed.

(** The converse fails: with an open handle whose probe raises, [/status]
    reports not connected while [/send] still writes. *)
Example status_disconnected_yet_send_writes :
  fst (get_status false open_state) = false
  /\ exists resp s' rest,
      send_command sample_loads ping_env (request_for "PING") open_state
      = Some (resp, s', EvTime 0 :: EvWrite ("PING" ++ LF)%string :: rest).
Proof.
  split; [reflexivity|]. do 3 eexists. vm_compute. reflexivity.
Qed.

(** ** Reconnect loop *)

Lemma auto_reconnect_pass_frame (k : ReconnectTick) (s : State) :
  history (fst (auto_reconnect_pass k s)) = history s
  /\ serial_buffer (fst (auto_reconnect_pass k s)) = serial_buffer s
  /\ Forall (eq DEFAULT_PORT) (opened_ports (snd (auto_reconnect_pass k s)))
  /\ (fst (auto_reconnect_pass k s) = s
      \/ ser (fst (auto_reconnect_pass k s)) = None
      \/ (ser (fst (auto_reconnect_pass k s)) = Some (mkSerial DEFAULT_PORT true)
          /\ listener_active (fst (auto_reconnect_pass k s)) = true)).
Proof.
  unfold auto_reconnect_pass.
  destruct (ser s) as [h|] eqn:Hser.
  - destruct (probe_ok k).
    + simpl. repeat split; [constructor | now left].
    + destruct (reopen_ok k); simpl.
      * repeat split; [repeat constructor | right; right; now split].
      * repeat split; [repeat constructor | right; now left].
  - destruct (reopen_ok k); simpl.
    + destruct (listener_active s) eqn:Hflag; simpl.
      * repeat split; [repeat constructor | right; right; now split].
      * repeat split; [repeat constructor | right; right; now split].
    + repeat split; [repeat constructor | right; now left].
Qed.

Lemma opened_ports_app (tr1 tr2 : Trace) :
  opened_ports (tr1 ++ tr2) = opened_ports tr1 ++ opened_ports tr2.
Proof.
  induction tr1 as [|e tr1 IH]; simpl; [reflexivity|].
  destruct e; simpl; now rewrite ?IH.
Qed.

(** X14.  The reconnect loop only ever opens [DEFAULT_PORT], whatever port
    [/connect] selected before: every port it tries is [DEFAULT_PORT], and
    after any run either the state is the one it started with, or [ser] is
    [None], or [ser] is an open handle on [DEFAULT_PORT] with the liveness
    flag set.  The history and the line buffer are never touched. *)
Theorem reconnect_targets_default_port :
  forall (ks : list ReconnectTick) (s : State),
    Forall (eq DEFAULT_PORT) (opened_ports (snd (auto_reconnect_loop ks s)))
    /\ history (fst (auto_reconnect_loop ks s)) = history s
    /\ serial_buffer (fst (auto_reconnect_loop ks s)) = serial_buffer s
    /\ (fst (auto_reconnect_loop ks s) = s
        \/ ser (fst (auto_reconnect_loop ks s)) = None
        \/ (ser (fst (auto_reconnect_loop ks s)) = Some (mkSerial DEFAULT_PORT true)
            /\ listener_active (fst (auto_reconnect_loop ks s)) = true)).
Proof.
  induction ks as [|k ks IH]; intros s; simpl.
  - repeat split; [constructor | now left].
  - destruct (auto_reconnect_pass_frame k s) as (Hh & Hb & Hp & Hser).
    destruct (auto_reconnect_pass k s) as [s1 tr1]. simpl in *.
    destruct (IH s1) as (Hp2 & Hh2 & Hb2 & Hser2).
    destruct (auto_reconnect_loop ks s1) as [s2 tr2]. simpl in *.
    repeat split.
    + rewrite opened_ports_app. apply Forall_app. now split.
    + congruence.
    + congruence.
    + destruct Hser2 as [-> | Hother]; [exact Hser | now right].
Qed.

Lemma auto_reconnect_loop_app (ks1 ks2 : list ReconnectTick) :
  forall s,
    auto_reconnect_loop (ks1 ++ ks2) s
    = (fst (auto_reconnect_loop ks2 (fst (auto_reconnect_loop ks1 s))),
       snd (auto_reconnect_loop ks1 s)
         ++ snd (auto_reconnect_loop ks2 (fst (auto_reconnect_loop ks1 s)))).
Proof.
  induction ks1 as [|k ks1 IH]; intros s; simpl.
  - now destruct (auto_reconnect_loop ks2 s).
  - destruct (auto_reconnect_pass k s) as [s1 tr1]. rewrite IH.
    destruct (auto_reconnect_loop ks1 s1) as [s2 tr2]. simpl.
    destruct (auto_reconnect_loop ks2 s2) as [s3 tr3]. simpl.
    now rewrite app_assoc.
Qed.

Lemma set_ser_same (s : State) (v : option Serial) : ser s = v -> set_ser v s = s.
Proof. destruct s. simpl. now intros <-. Qed.

Lemma count_events_cons (f : Event -> bool) (e : Event) (tr : Trace) :
  count_events f (e :: tr) = ((if f e then 1 else 0) + count_events f tr)%nat.
Proof. unfold count_events. simpl. now destruct (f e). Qed.

Lemma count_events_nil (f : Event -> bool) : count_events f [] = 0%nat.
Proof. reflexivity. Qed.

Arguments count_events : simpl never.

Ltac count_trace :=
  rewrite ?count_events_app, ?count_events_cons, ?count_events_nil; simpl.

Lemma auto_reconnect_loop_failing (ks : list ReconnectTick) :
  forall s,
    ser s = None ->
    Forall (fun k => reopen_ok k = false) ks ->
    fst (auto_reconnect_loop ks s) = s
    /\ count_events is_open_event (snd (auto_reconnect_loop ks s)) = List.length ks
    /\ count_events is_spawn (snd (auto_reconnect_loop ks s)) = 0%nat.
Proof.
  induction ks as [|k ks IH]; intros s Hser Hall; simpl; [now repeat split|].
  inversion Hall as [|k' ks' Hk Hrest]; subst.
  unfold auto_reconnect_pass. rewrite Hser, Hk. simpl.
  rewrite (set_ser_same s None Hser).
  destruct (IH s Hser Hrest) as (Hs & Hopens & Hspawns).
  destruct (auto_reconnect_loop ks s) as [s2 tr2]. simpl in *.
  count_trace. rewrite ?Hopens, ?Hspawns. now repeat split.
Qed.

Lemma auto_reconnect_loop_healthy (ks : list ReconnectTick) :
  forall s h,
    ser s = Some h ->
    Forall (fun k => probe_ok k = true) ks ->
    fst (auto_reconnect_loop ks s) = s
    /\ count_events is_open_event (snd (auto_reconnect_loop ks s)) = 0%nat
    /\ count_events is_spawn (snd (auto_reconnect_loop ks s)) = 0%nat
    /\ existsb touches_connection (snd (auto_reconnect_loop ks s)) = false.
Proof.
  induction ks as [|k ks IH]; intros s h Hser Hall; simpl; [now repeat split|].
  inversion Hall as [|k' ks' Hk Hrest]; subst.
  unfold auto_reconnect_pass. rewrite Hser, Hk. simpl.
  destruct (IH s h Hser Hrest) as (Hs & Hopens & Hspawns & Htouch).
  destruct (auto_reconnect_loop ks s) as [s2 tr2]. simpl in *.
  count_trace. rewrite ?Hopens, ?Hspawns. now repeat split.
Qed.

(** X15.  Starting without a handle, the reconnect loop tries [DEFAULT_PORT]
    once in every pass, with no back-off and no limit; the first pass in which
    the port opens leaves an open handle and the liveness flag set, spawning a
    listener only if the flag was clear; the passes after it, as long as the
    probe answers, change nothing. *)
Theorem reconnect_retries_until_open :
  forall (failing healthy : list ReconnectTick) (k : ReconnectTick) (s : State),
    ser s = None ->
    Forall (fun t => reopen_ok t = false) failing ->
    reopen_ok k = true ->
    Forall (fun t => probe_ok t = true) healthy ->
    ser (fst (auto_reconnect_loop (failing ++ k :: healthy) s))
    = Some (mkSerial DEFAULT_PORT true)
    /\ listener_active (fst (auto_reconnect_loop (failing ++ k :: healthy) s)) = true
    /\ count_events is_open_event (snd (auto_reconnect_loop (failing ++ k :: healthy) s))
       = S (List.length failing)
    /\ count_events is_spawn (snd (auto_reconnect_loop (failing ++ k :: healthy) s))
       = (if listener_active s then 0 else 1)%nat.
Proof.
  intros failing healthy k s Hser Hfail Hk Hhealthy.
  rewrite auto_reconnect_loop_app.
  destruct (auto_reconnect_loop_failing failing s Hser Hfail) as (Hs & Hopens & Hspawns).
  destruct (auto_reconnect_loop failing s) as [s1 tr1]. simpl in Hs, Hopens, Hspawns.
  subst s1. cbn [fst snd auto_reconnect_loop].
  unfold auto_reconnect_pass. rewrite Hser, Hk. cbn [app].
  set (s2 := set_ser (Some (mkSerial DEFAULT_PORT true)) s).
  assert (Hflag : listener_active s2 = listener_active s) by reflexivity.
  rewrite Hflag.
  destruct (listener_active s) eqn:Hactive.
  - destruct (auto_reconnect_loop_healthy healthy s2 (mkSerial DEFAULT_PORT true)
                eq_refl Hhealthy) as (Hs2 & Ho2 & Hsp2 & _).
    destruct (auto_reconnect_loop healthy s2) as [s3 tr3]. simpl in *. subst s3.
    count_trace. rewrite Hopens, Hspawns, Ho2, Hsp2.
    repeat split; [exact Hactive | lia].
  - destruct (auto_reconnect_loop_healthy healthy (set_listener_active true s2)
                (mkSerial DEFAULT_PORT true) eq_refl Hhealthy) as (Hs2 & Ho2 & Hsp2 & _).
    destruct (auto_reconnect_loop healthy (set_listener_active true s2)) as [s3 tr3].
    simpl in *. subst s3.
    count_trace. rewrite Hopens, Hspawns, Ho2, Hsp2.
    repeat split; lia.
Qed.

(** ** The listener across a disconnection *)

Lemma serial_listener_idle (ks : list Tick) :
  forall s,
    ser s = None ->
    fst (fst (serial_listener ks s)) = Continue
    /\ snd (fst (serial_listener ks s)) = s
    /\ existsb needs_lock (snd (serial_listener ks s)) = false.
Proof.
  induction ks as [|k ks IH]; intros s Hser; simpl; [now repeat split|].
  unfold serial_listener_pass. rewrite Hser.
  destruct (IH s Hser) as (Ho & Hs & Hquiet).
  destruct (serial_listener ks s) as [[o2 s2] tr2]. simpl in *.
  now repeat split.
Qed.

(** X16.  Without a handle the listener keeps looping and never touches the
    port or the buffer; once a pass of the reconnect loop has opened the
    port, the same listener buffers the next line it reads, stripped and
    stamped, without being restarted. *)
Theorem listener_survives_disconnection :
  forall (idle_passes : list Tick) (k : ReconnectTick) (t : Tick)
         (s : State) (n : nat) (raw : string),
    ser s = None ->
    reopen_ok k = true ->
    probe t = Some (S n) -> readline t = Some raw -> truthy (strip raw) = true ->
    fst (fst (serial_listener idle_passes s)) = Continue
    /\ existsb needs_lock (snd (serial_listener idle_passes s)) = false
    /\ fst (fst (serial_listener_pass t
                   (fst (auto_reconnect_pass k (snd (fst (serial_listener idle_passes s)))))))
       = Continue
    /\ serial_buffer
         (snd (fst (serial_listener_pass t
                      (fst (auto_reconnect_pass k (snd (fst (serial_listener idle_passes s))))))))
       = deque_append BUFFER_MAXLEN (mkLine (observed t) (strip raw)) (serial_buffer s).
Proof.
  intros idle_passes k t s n raw Hser Hk Hprobe Hread Htruthy.
  destruct (serial_listener_idle idle_passes s Hser) as (Ho & Hs & Hquiet).
  rewrite Hs. repeat split; try assumption.
  - unfold auto_reconnect_pass, serial_listener_pass. rewrite Hser, Hk. simpl.
    destruct (listener_active s); simpl; rewrite Hprobe, Hread, Htruthy; reflexivity.
  - unfold auto_reconnect_pass, serial_listener_pass. rewrite Hser, Hk. simpl.
    destruct (listener_active s); simpl; rewrite Hprobe, Hread, Htruthy; reflexivity.
Qed.

(** ** A failed [/connect], then the reconnect loop *)

(** X17.  After a [/connect] whose opening raised while a connection was open,
    every [/send] with a command is refused with "Serial port not available"
    and changes nothing; a pass of the reconnect loop whose probe fails and
    whose opening succeeds then leaves an open handle, on [DEFAULT_PORT] and
    not on the port asked for, and [/send] is no longer refused. *)
Theorem failed_connect_heals_on_default_port :
  forall (Json : Type) (json_loads : string -> option Json)
         (cenv : ConnectEnv) (r : Request) (p : string) (s : State) (h : Serial)
         (msg : string) (env env' : SendEnv) (q : Request) (c : string)
         (k : ReconnectTick),
    port r = Some p -> truthy p = true ->
    ser s = Some h -> is_open h = true ->
    close_raises cenv = None -> open_raises cenv = Some msg ->
    command q = Some c ->
    probe_ok k = false -> reopen_ok k = true ->
    send_command json_loads env (Some q) (snd (fst (@connect Json cenv (Some r) s)))
    = Some (not_available, snd (fst (@connect Json cenv (Some r) s)), [])
    /\ ser (fst (auto_reconnect_pass k (snd (fst (@connect Json cenv (Some r) s)))))
       = Some (mkSerial DEFAULT_PORT true)
    /\ forall resp s' tr,
         send_command json_loads env' (Some q)
           (fst (auto_reconnect_pass k (snd (fst (@connect Json cenv (Some r) s)))))
         = Some (resp, s', tr) ->
         resp <> not_available
         /\ exists rest,
             tr = EvTime (since env') :: EvWrite (strip c ++ LF)%string :: rest.
Proof.
  intros Json json_loads cenv r p s h msg env env' q c k
    Hport Hp Hser Hopen Hclose Hraise Hc Hprobe Hreopen.
  assert (Hconnect : snd (fst (@connect Json cenv (Some r) s))
                     = set_ser (Some (mkSerial (port_name h) false)) s).
  { unfold connect. simpl. now rewrite Hport, Hp, Hser, Hopen, Hclose, Hraise. }
  rewrite Hconnect. split; [|split].
  - unfold send_command. simpl. now rewrite Hc.
  - unfold auto_reconnect_pass. simpl. rewrite Hprobe, Hreopen. reflexivity.
  - intros resp s' tr. unfold auto_reconnect_pass. simpl. rewrite Hprobe, Hreopen. simpl.
    unfold send_command. simpl. rewrite Hc.
    destruct (write_ok env').
    + destruct (wait_for_new_response _ _ _ _) as [[[response s1] tr1]|]; [|discriminate].
      intros [= <- <- <-]. split; [|eexists; reflexivity].
      intros H. apply (f_equal code) in H. rewrite classify_code in H. discriminate.
    + intros [= <- <- <-]. split; [discriminate | eexists; reflexivity].
Qed.

(** ** The two rolling containers, whatever happens *)

Lemma wait_loop_buffer_bounded (since_time timeout start0 : Q) (ps : list Poll) :
  forall s d s' tr,
    (List.length (serial_buffer s) <= BUFFER_MAXLEN)%nat ->
    wait_loop since_time timeout start0 ps s = Some (d, s', tr) ->
    (List.length (serial_buffer s') <= BUFFER_MAXLEN)%nat.
Proof.
  induction ps as [|p rest IH]; intros s d s' tr Hcap; simpl; [discriminate|].
  assert (Hcap1 : (List.length (serial_buffer (listener_progress (arrivals p) s))
                   <= BUFFER_MAXLEN)%nat).
  { unfold listener_progress. rewrite (serial_listener_window _ _ Hcap).
    apply keep_last_length. }
  destruct (Qltb (now p - start0) timeout).
  - destruct (scan since_time _) as [d0|].
    + now intros [= <- <- <-].
    + destruct (wait_loop _ _ _ rest _) as [[[d1 s1] tr1]|] eqn:Hrest; [|discriminate].
      intros [= <- <- <-]. exact (IH _ _ _ _ Hcap1 Hrest).
  - now intros [= <- <- <-].
Qed.

Lemma log_command_buffer (cmd response stamp : string) (s : State) :
  serial_buffer (log_command cmd response stamp s) = serial_buffer s.
Proof. unfold log_command. now destruct (_ <? _)%nat. Qed.

Lemma act_within_bounds {Json : Type} (json_loads : string -> option Json)
  (a : Action) (s s' : State) :
  within_bounds s -> act json_loads a s = Some s' -> within_bounds s'.
Proof.
  intros (Hh & Hb). destruct a as [env req|env req|req|req|pa|k|k]; simpl.
  - destruct (send_command json_loads env req s) as [[[resp s1] tr1]|] eqn:Hsend;
      [|discriminate].
    intros [= <-]. split.
    + rewrite (send_command_history json_loads _ _ _ _ _ _ Hh Hsend).
      apply keep_last_length.
    + destruct (send_command_cases json_loads env req s resp s1 tr1 Hsend)
        as [(_ & -> & _) | (r & c & h & response & s2 & tr2 & _ & _ & _ & _ & _ & Hwait & _ & -> & _)];
        [exact Hb|].
      rewrite log_command_buffer. unfold wait_for_new_response in Hwait.
      destruct (wait_loop _ _ _ _ _) as [[[d3 s3] tr3]|] eqn:Hloop; [|discriminate].
      injection Hwait as _ <- _.
      exact (wait_loop_buffer_bounded _ _ _ _ _ _ _ _ Hb Hloop).
  - intros [= <-].
    destruct (@connect Json env req s) as [[resp s1] tr1] eqn:Hconnect.
    destruct (connect_effect Json env req s resp s1 tr1 Hconnect) as (H1 & H2 & _).
    simpl. split; [now rewrite H1 | now rewrite H2].
  - intros [= <-]. unfold clear_log_route. simpl. split; [apply Nat.le_0_l | exact Hb].
  - intros [= <-]. now split.
  - intros [= <-]. now split.
  - intros [= <-].
    destruct (serial_listener_pass_frame k s) as (_ & H1 & _).
    split; [now rewrite H1|].
    rewrite (serial_listener_pass_window k s Hb). apply keep_last_length.
  - intros [= <-].
    destruct (auto_reconnect_pass_frame k s) as (H1 & H2 & _).
    split; [now rewrite H1 | now rewrite H2].
Qed.

(** X18.  However calls of the routes and passes of the listener and of the
    reconnect loop follow one another, a state whose history holds at most 50
    exchanges and whose line buffer holds at most 100 records stays so: in
    particular from the initial state, where both are empty. *)
Theorem containers_stay_bounded :
  forall (Json : Type) (json_loads : string -> option Json)
         (actions : list Action) (s s' : State),
    (List.length (history s) <= 50)%nat ->
    (List.length (serial_buffer s) <= 100)%nat ->
    run json_loads actions s = Some s' ->
    (List.length (history s') <= 50)%nat
    /\ (List.length (serial_buffer s') <= 100)%nat.
Proof.
  intros Json json_loads actions.
  induction actions as [|a actions IH]; intros s s' Hh Hb; simpl.
  - intros [= <-]. now split.
  - destruct (act json_loads a s) as [s1|] eqn:Hact; [|discriminate].
    destruct (act_within_bounds json_loads a s s1 (conj Hh Hb) Hact) as (Hh1 & Hb1).
    now apply IH.
Qed.

(** ** Video stream *)

(** X19.  The video stream delivers one chunk per frame, in order, each
    wrapped between the boundary header and a line end, and it ends for good
    at the first read that fails: frames read after it are never sent. *)
Theorem video_stream_stops_at_first_failed_read :
  forall (frames : list string) (later : list (option string)),
    generate_video_stream (map Some frames ++ None :: later) = map frame_chunk frames
    /\ generate_video_stream (map Some frames) = map frame_chunk frames.
Proof.
  intros frames later. induction frames as [|f frames (IH1 & IH2)]; simpl.
  - now split.
  - now rewrite IH1, IH2.
Qed.

(** ** Blank commands *)


(** ** Old lines *)



(** ** Mutual exclusion of what the lock guards *)

Lemma holds_some (who : Thread) (holder : option Thread) :
  holds who holder = true -> holder = Some who.
Proof.
  destruct holder as [w|]; simpl; [|discriminate].
  destruct w, who; simpl; congruence.
Qed.

Lemma well_locked_step (who other : Thread) (e : Event) (rest : Trace)
  (holder : option Thread) :
  thread_eqb who other = false ->
  well_locked (holds who holder) (e :: rest) = true ->
  (needs_lock e = true -> holder = Some who)
  /\ forall holder',
       lock_step who e holder = Some holder' ->
       well_locked (holds who holder') rest = true
       /\ holds other holder' = holds other holder.
Proof.
  intros Hother Hwl. split.
  - intros Hneeds. apply holds_some.
    destruct e; simpl in Hneeds; try discriminate; simpl in Hwl;
      now apply andb_true_iff in Hwl.
  - intros holder'. destruct e; simpl in *;
      try (intros [= <-]; split; [|reflexivity];
           first [ exact Hwl | now apply andb_true_iff in Hwl ]).
    + destruct holder as [w|]; [discriminate|]. intros [= <-].
      simpl in Hwl. split.
      * destruct who; exact Hwl.
      * destruct who, other; simpl in *; congruence.
    + destruct holder as [w|]; [|discriminate].
      destruct (thread_eqb w who) eqn:Hw; [|discriminate]. intros [= <-].
      simpl in Hwl. rewrite Hw in Hwl. simpl in Hwl. split; [exact Hwl|].
      destruct w, who, other; simpl in *; congruence.
Qed.

Lemma interleave_guarded (sched : list Thread) :
  forall g l holder run,
    well_locked (holds Gateway holder) g = true ->
    well_locked (holds Listener holder) l = true ->
    interleave sched g l holder = Some run ->
    Forall (fun x : Scheduled =>
              needs_lock (snd (fst x)) = true -> snd x = Some (fst (fst x))) run.
Proof.
  induction sched as [|who sched IH]; intros g l holder run Hg Hl; simpl.
  - intros [= <-]. constructor.
  - destruct who.
    + destruct g as [|e g']; [discriminate|].
      destruct (lock_step Gateway e holder) as [holder'|] eqn:Hstep; [|discriminate].
      destruct (interleave sched g' l holder') as [run'|] eqn:Hrest; [|discriminate].
      intros [= <-].
      destruct (well_locked_step Gateway Listener e g' holder eq_refl Hg) as (Hneeds & Hnext).
      destruct (Hnext holder' Hstep) as (Hg' & Hsame).
      constructor; [exact Hneeds|].
      apply (IH g' l holder' run' Hg'); [now rewrite Hsame | exact Hrest].
    + destruct l as [|e l']; [discriminate|].
      destruct (lock_step Listener e holder) as [holder'|] eqn:Hstep; [|discriminate].
      destruct (interleave sched g l' holder') as [run'|] eqn:Hrest; [|discriminate].
      intros [= <-].
      destruct (well_locked_step Listener Gateway e l' holder eq_refl Hl) as (Hneeds & Hnext).
      destruct (Hnext holder' Hstep) as (Hl' & Hsame).
      constructor; [exact Hneeds|].
      apply (IH g l' holder' run'); [now rewrite Hsame | exact Hl' | exact Hrest].
Qed.

(** X22.  In every interleaving that the lock admits of a completed [/send]
    with a run of the listener, each probe, read, append and snapshot is
    performed by the thread that holds [serial_lock] at that moment: the scans
    of the correlator never overlap a listener read or append. *)
Theorem scans_and_reads_are_mutually_exclusive :
  forall (Json : Type) (json_loads : string -> option Json)
         (env : SendEnv) (req : option Request) (s : State)
         (resp : HttpResponse Json) (s' : State) (g : Trace)
         (ks : list Tick) (s0 : State) (sched : list Thread) (run : list Scheduled),
    send_command json_loads env req s = Some (resp, s', g) ->
    interleave sched g (snd (serial_listener ks s0)) None = Some run ->
    Forall (fun x : Scheduled =>
              needs_lock (snd (fst x)) = true -> snd x = Some (fst (fst x))) run.
Proof.
  intros Json json_loads env req s resp s' g ks s0 sched run Hsend Hrun.
  apply (interleave_guarded sched g (snd (serial_listener ks s0)) None run);
    [| |exact Hrun].
  - revert Hsend. unfold send_command.
    destruct (negb (require_password req)); [now intros [= <- <- <-]|].
    destruct req as [r|]; [|now intros [= <- <- <-]].
    destruct (command r) as [c|]; [|now intros [= <- <- <-]].
    destruct (ser s) as [h|]; [|now intros [= <- <- <-]].
    destruct (negb (is_open h)); [now intros [= <- <- <-]|].
    destruct (write_ok env); [|now intros [= <- <- <-]].
    unfold wait_for_new_response.
    destruct (wait_loop _ _ _ _ _) as [[[d1 s1] tr1]|] eqn:Hloop; [|discriminate].
    intros [= <- <- <-]. simpl.
    rewrite (well_locked_app tr1 _ false (wait_loop_well_locked _ _ _ _ _ _ _ _ Hloop)).
    reflexivity.
  - simpl. induction ks as [|k ks IH] in s0 |- *; simpl; [reflexivity|].
    pose proof (serial_listener_pass_well_locked k s0) as Hpass.
    destruct (serial_listener_pass k s0) as [[o s1] tr1]. simpl in Hpass.
    destruct o; simpl; try exact Hpass.
    specialize (IH s1). destruct (serial_listener ks s1) as [[o2 s2] tr2]. simpl in *.
    now rewrite (well_locked_app tr1 tr2 false Hpass).
Qed.

(** ** The further properties at sample inputs *)

Lemma line_buffer_keeps_most_recent_witness :
  (List.length (serial_buffer (snd (fst (serial_listener burst open_state)))) <= 100)%nat
  /\ serial_buffer (snd (fst (serial_listener burst open_state)))
     = keep_last 100
         (serial_buffer open_state ++ appended (snd (serial_listener burst open_state))).
Proof.
  apply (line_buffer_keeps_most_recent burst open_state). apply Nat.le_0_l.
Defined.

Lemma listener_buffers_trimmed_lines_witness :
  trimmed "ACK" /\ exists k, In k [line_at 1 ("  ACK " ++ LF)%string] /\ 1 = observed k.
Proof.
  apply (listener_buffers_trimmed_lines [line_at 1 ("  ACK " ++ LF)%string] open_state
           (mkLine 1 "ACK")).
  vm_compute. now left.
Defined.

Lemma send_command_lock_discipline_witness :
  exists resp s' tr,
    send_command sample_loads ping_env (request_for "PING") open_state
    = Some (resp, s', tr)
    /\ well_locked false tr = true.
Proof.
  do 3 eexists. split; [vm_compute; reflexivity|].
  eapply (send_command_lock_discipline string sample_loads ping_env
            (request_for "PING") open_state).
  vm_compute. reflexivity.
Defined.

Lemma send_command_scans_bounded_witness :
  exists resp s' tr,
    send_command sample_loads ping_env (request_for "PING") open_state
    = Some (resp, s', tr)
    /\ (count_events is_snapshot tr <= 200)%nat.
Proof.
  do 3 eexists. split; [vm_compute; reflexivity|].
  eapply (send_command_scans_bounded string sample_loads ping_env
            (request_for "PING") open_state).
  - simpl. concrete.
  - vm_compute. reflexivity.
Defined.

Lemma correlator_does_not_consume_witness :
  exists s' tr tr2,
    wait_for_new_response 0 DEFAULT_TIMEOUT (waiting ping_env) open_state
    = Some ("ACK PING", s', tr)
    /\ wait_for_new_response 0 DEFAULT_TIMEOUT again_env s' = Some ("ACK PING", s', tr2).
Proof.
  do 2 eexists.
  assert (Hfirst : wait_for_new_response 0 DEFAULT_TIMEOUT (waiting ping_env) open_state
                   = Some ("ACK PING",
                           set_serial_buffer [mkLine 0.120 "ACK PING"] open_state,
                           [EvTime 0.001; EvTime 0.002; EvAcquire; EvSnapshot; EvRelease;
                            EvSleep POLL; EvTime 0.110; EvAcquire; EvSnapshot; EvRelease;
                            EvSleep POLL; EvTime 0.125; EvAcquire; EvSnapshot; EvRelease]))
    by (vm_compute; reflexivity).
  destruct (correlator_does_not_consume 0 DEFAULT_TIMEOUT (waiting ping_env) open_state
              _ _ _ Hfirst) with (timeout2 := DEFAULT_TIMEOUT) (env2 := again_env)
              (p2 := mkPoll 0.201 []) (rest2 := @nil Poll) as (tr2 & Hagain).
  - intros p [<- | [<- | [<- | []]]]; concrete.
  - reflexivity.
  - reflexivity.
  - concrete.
  - exists tr2. split; [exact Hfirst | exact Hagain].
Defined.

Lemma listener_keeps_observation_order_witness :
  chronological (serial_buffer (snd (fst (serial_listener burst open_state)))).
Proof.
  apply (listener_keeps_observation_order burst open_state 0).
  - constructor.
  - intros y [].
  - unfold burst. simpl. concrete.
Defined.

Lemma correlator_returns_earliest_when_ordered_witness :
  exists s' tr,
    wait_for_new_response 0 DEFAULT_TIMEOUT (waiting ping_env) open_state
    = Some ("ACK PING", s', tr)
    /\ ((exists r,
            In r (serial_buffer s') /\ data r = "ACK PING"
            /\ 0 - grace <= timestamp r
            /\ forall x, In x (serial_buffer s') -> 0 - grace <= timestamp x ->
                         timestamp r <= timestamp x)
        \/ ("ACK PING" = NO_RESPONSE
            /\ exists p, In p (polls (waiting ping_env))
                         /\ DEFAULT_TIMEOUT <= now p - start (waiting ping_env))).
Proof.
  do 2 eexists. split; [vm_compute; reflexivity|].
  eapply (correlator_returns_earliest_when_ordered 0 DEFAULT_TIMEOUT
            (waiting ping_env) open_state).
  - vm_compute. reflexivity.
  - repeat constructor.
Defined.

Lemma send_command_logs_answered_exchanges_only_witness :
  (exists r c response,
      request_for "PING" = Some r /\ command r = Some c
      /\ jsonify (StatusMessage "success" "ACK PING") = classify sample_loads response
      /\ logged
           [EvTime 0; EvWrite ("PING" ++ LF)%string; EvTime 0.001; EvTime 0.002;
            EvAcquire; EvSnapshot; EvRelease; EvSleep POLL; EvTime 0.110; EvAcquire;
            EvSnapshot; EvRelease; EvSleep POLL; EvTime 0.125; EvAcquire; EvSnapshot;
            EvRelease; EvLog (mkExchange "PING" "ACK PING" "2025-08-01T10:00:00")]
         = [mkExchange (strip c) response (logged_at ping_env)])
  /\ (closed_state = closed_state /\ logged [] = []
      /\ count_events is_snapshot [] = 0%nat).
Proof.
  split.
  - apply (send_command_logs_answered_exchanges_only string sample_loads ping_env
             (request_for "PING") open_state
             (jsonify (StatusMessage "success" "ACK PING"))
             (log_command "PING" "ACK PING" "2025-08-01T10:00:00"
                (set_serial_buffer [mkLine 0.120 "ACK PING"] open_state))).
    + vm_compute. reflexivity.
    + reflexivity.
  - apply (send_command_logs_answered_exchanges_only string sample_loads ping_env
             (request_for "PING") closed_state not_available closed_state []).
    + reflexivity.
    + discriminate.
Defined.

Lemma get_log_ends_with_last_exchange_witness :
  exists older e,
    get_log None
      (log_command "PING" "ACK PING" "2025-08-01T10:00:00"
         (set_serial_buffer [mkLine 0.120 "ACK PING"] open_state))
    = LogEntries (older ++ [e])
    /\ logged
         [EvTime 0; EvWrite ("PING" ++ LF)%string; EvTime 0.001; EvTime 0.002;
          EvAcquire; EvSnapshot; EvRelease; EvSleep POLL; EvTime 0.110; EvAcquire;
          EvSnapshot; EvRelease; EvSleep POLL; EvTime 0.125; EvAcquire; EvSnapshot;
          EvRelease; EvLog (mkExchange "PING" "ACK PING" "2025-08-01T10:00:00")]
       = [e]
    /\ ex_timestamp e = logged_at ping_env.
Proof.
  apply (get_log_ends_with_last_exchange string sample_loads ping_env
           (request_for "PING") None open_state
           (jsonify (StatusMessage "success" "ACK PING"))).
  - vm_compute. reflexivity.
  - reflexivity.
Defined.

Lemma no_route_checks_the_password_witness :
  get_log (Some (mkRequest None None (Some "wrong"))) open_state
  = LogEntries (history open_state)
  /\ code (fst (fst (@connect string refusing (Some (mkRequest None None (Some "wrong")))
                       open_state))) <> 403%nat.
Proof.
  destruct (no_route_checks_the_password string sample_loads ping_env refusing
              (Some (mkRequest None None (Some "wrong"))) open_state)
    as (Hlog & _ & Hconnect & _).
  split; [exact Hlog | exact Hconnect].
Defined.

Lemma connect_replaces_only_the_handle_witness :
  exists s',
    @connect string (mkConnectEnv None None) (connect_request "COM9") open_state
    = (jsonify (StatusMessage "success" "Connected to COM9"), s', [EvClose; EvOpen "COM9"])
    /\ history s' = history open_state
    /\ serial_buffer s' = serial_buffer open_state
    /\ listener_active s' = listener_active open_state
    /\ ser s' = Some (mkSerial "COM9" true).
Proof.
  eexists. split; [vm_compute; reflexivity|].
  destruct (connect_replaces_only_the_handle string (mkConnectEnv None None)
              (connect_request "COM9") open_state
              (jsonify (StatusMessage "success" "Connected to COM9"))
              (set_ser (Some (mkSerial "COM9" true))
                 (set_ser (Some (mkSerial "COM3" false)) open_state))
              [EvClose; EvOpen "COM9"] eq_refl)
    as (Hh & Hb & Hflag & _ & Hsuccess).
  repeat split; try assumption.
Defined.

Lemma status_connected_means_send_writes_witness :
  exists resp s' rest,
    send_command sample_loads ping_env (request_for "PING") open_state
    = Some (resp, s', EvTime (since ping_env) :: EvWrite (strip "PING" ++ LF)%string :: rest)
    /\ resp <> not_available.
Proof.
  assert (Hsend : exists resp s' tr,
             send_command sample_loads ping_env (request_for "PING") open_state
             = Some (resp, s', tr))
    by (do 3 eexists; vm_compute; reflexivity).
  destruct Hsend as (resp & s' & tr & Hsend).
  destruct (status_connected_means_send_writes string sample_loads true ping_env
              (mkRequest (Some "PING") None None) "PING" open_state resp s' tr
              eq_refl eq_refl Hsend) as (Hne & rest & Htr).
  exists resp, s', rest. split; [|exact Hne]. rewrite <- Htr. exact Hsend.
Defined.

Lemma reconnect_retries_until_open_witness :
  ser (fst (auto_reconnect_loop
              ([mkReconnectTick true false; mkReconnectTick true false]
               ++ mkReconnectTick true true :: [mkReconnectTick true true])
              initial_state))
  = Some (mkSerial DEFAULT_PORT true)
  /\ listener_active
       (fst (auto_reconnect_loop
               ([mkReconnectTick true false; mkReconnectTick true false]
                ++ mkReconnectTick true true :: [mkReconnectTick true true])
               initial_state)) = true
  /\ count_events is_open_event
       (snd (auto_reconnect_loop
               ([mkReconnectTick true false; mkReconnectTick true false]
                ++ mkReconnectTick true true :: [mkReconnectTick true true])
               initial_state)) = 3%nat
  /\ count_events is_spawn
       (snd (auto_reconnect_loop
               ([mkReconnectTick true false; mkReconnectTick true false]
                ++ mkReconnectTick true true :: [mkReconnectTick true true])
               initial_state)) = 1%nat.
Proof.
  apply (reconnect_retries_until_open
           [mkReconnectTick true false; mkReconnectTick true false]
           [mkReconnectTick true true] (mkReconnectTick true true) initial_state).
  - reflexivity.
  - repeat constructor.
  - reflexivity.
  - repeat constructor.
Defined.

Lemma listener_survives_disconnection_witness :
  fst (fst (serial_listener [failing_read; failing_read] initial_state)) = Continue
  /\ existsb needs_lock (snd (serial_listener [failing_read; failing_read] initial_state))
     = false
  /\ fst (fst (serial_listener_pass (line_at 7 " READY ")
                 (fst (auto_reconnect_pass (mkReconnectTick true true)
                         (snd (fst (serial_listener [failing_read; failing_read]
                                      initial_state))))))) = Continue
  /\ serial_buffer
       (snd (fst (serial_listener_pass (line_at 7 " READY ")
                    (fst (auto_reconnect_pass (mkReconnectTick true true)
                            (snd (fst (serial_listener [failing_read; failing_read]
                                         initial_state))))))))
     = deque_append BUFFER_MAXLEN (mkLine (observed (line_at 7 " READY ")) (strip " READY "))
         (serial_buffer initial_state).
Proof.
  apply (listener_survives_disconnection [failing_read; failing_read]
           (mkReconnectTick true true) (line_at 7 " READY ") initial_state 6 " READY ");
    reflexivity.
Defined.

Lemma failed_connect_heals_on_default_port_witness :
  send_command sample_loads ping_env (request_for "PING")
    (snd (fst (@connect string refusing (connect_request "COM9") open_state)))
  = Some (not_available,
          snd (fst (@connect string refusing (connect_request "COM9") open_state)), [])
  /\ ser (fst (auto_reconnect_pass (mkReconnectTick false true)
                 (snd (fst (@connect string refusing (connect_request "COM9") open_state)))))
     = Some (mkSerial DEFAULT_PORT true).
Proof.
  destruct (failed_connect_heals_on_default_port string sample_loads refusing
              (mkRequest None (Some "COM9") None) "COM9" open_state
              (mkSerial "COM3" true) "could not open port 'COM9'"
              ping_env ping_env (mkRequest (Some "PING") None None) "PING"
              (mkReconnectTick false true)
              eq_refl eq_refl eq_refl eq_refl eq_refl eq_refl eq_refl eq_refl eq_refl)
    as (Hrefused & Hhealed & _).
  split; [exact Hrefused | exact Hhealed].
Defined.

Lemma containers_stay_bounded_witness :
  exists s',
    run sample_loads sample_actions initial_state = Some s'
    /\ (List.length (history s') <= 50)%nat
    /\ (List.length (serial_buffer s') <= 100)%nat.
Proof.
  eexists. split; [vm_compute; reflexivity|].
  eapply (containers_stay_bounded string sample_loads sample_actions initial_state).
  - apply Nat.le_0_l.
  - apply Nat.le_0_l.
  - vm_compute. reflexivity.
Defined.



Lemma scans_and_reads_are_mutually_exclusive_witness :
  exists run,
    interleave [Listener; Gateway; Gateway; Listener; Listener; Listener; Listener;
                Listener; Gateway; Gateway; Gateway; Gateway; Gateway; Listener]
      [EvTime 0; EvWrite ("PING" ++ LF)%string; EvTime 0.001; EvTime 0.002;
       EvAcquire; EvSnapshot; EvRelease; EvSleep POLL; EvTime 0.110; EvAcquire;
       EvSnapshot; EvRelease; EvSleep POLL; EvTime 0.125; EvAcquire; EvSnapshot;
       EvRelease; EvLog (mkExchange "PING" "ACK PING" "2025-08-01T10:00:00")]
      (snd (serial_listener [line_at 0.120 "ACK PING"] open_state)) None
    = Some run
    /\ Forall (fun x : Scheduled =>
                 needs_lock (snd (fst x)) = true -> snd x = Some (fst (fst x))) run.
Proof.
  eexists. split; [vm_compute; reflexivity|].
  eapply (scans_and_reads_are_mutually_exclusive string sample_loads ping_env
            (request_for "PING") open_state _ _
            [EvTime 0; EvWrite ("PING" ++ LF)%string; EvTime 0.001; EvTime 0.002;
             EvAcquire; EvSnapshot; EvRelease; EvSleep POLL; EvTime 0.110; EvAcquire;
             EvSnapshot; EvRelease; EvSleep POLL; EvTime 0.125; EvAcquire; EvSnapshot;
             EvRelease; EvLog (mkExchange "PING" "ACK PING" "2025-08-01T10:00:00")]
            [line_at 0.120 "ACK PING"] open_state
            [Listener; Gateway; Gateway; Listener; Listener; Listener; Listener;
             Listener; Gateway; Gateway; Gateway; Gateway; Gateway; Listener]).
  - vm_compute. reflexivity.
  - vm_compute. reflexivity.
Defined.
